(** * The downloader's notifier: job records, the queue store and callback delivery

    A shallow embedding of [notifier.go] (package [notifier]) together with
    the parts of packages [job] and [storage] it relies on.  Go errors are
    values of type [error] ([None] is [nil]); a [*job.Job] that a function
    mutates is threaded through and returned; the store, the logger and the
    sequence of calls made to the outside live in a [World] that every
    effectful function passes along. *)

From Stdlib Require Import ZArith NArith Lia.
From stdpp Require Import base strings list gmap.

Local Open Scope string_scope.
Local Open Scope list_scope.

(** Go's [error]: [None] is [nil], [Some msg] an error whose [Error()] is [msg]. *)
Abbreviation error := (option string).

(** ** Package [net/url]: the fields of [url.URL] the notifier touches. *)
Module url.

Record URL := mkURL {
  Scheme : string;
  Host : string;
  Path : string;
  RawQuery : string;
  Fragment : string
}.

Definition withPath (p : string) (u : URL) : URL :=
  mkURL (Scheme u) (Host u) p (RawQuery u) (Fragment u).

End url.

(** ** Package [job] *)
Module job.

(** [type State string]. *)
Abbreviation State := string.

(** Modelled from the spec: the four state constants of package [job], whose
    declarations are not part of the sources at hand; section 3 of the
    specification names them.  Only their being pairwise distinct is used. *)
Definition StatePending : State := "Pending".
Definition StateInProgress : State := "InProgress".
Definition StateSuccess : State := "Success".
Definition StateFailed : State := "Failed".

(** Modelled from the spec: the [Job] struct of package [job] (section 3 of
    the specification).  [CallbackCount] is the specification's non-negative
    integer; [DownloadTimeout] is 0 when the submission gave none. *)
Record Job := mkJob {
  ID : string;
  AggrID : string;
  URL : string;
  CallbackURL : string;
  Extra : string;
  DownloadTimeout : Z;
  DownloadState : State;
  DownloadMeta : string;
  CallbackState : State;
  CallbackMeta : string;
  CallbackCount : N
}.

Definition setCallbackCount (c : N) (j : Job) : Job :=
  mkJob (ID j) (AggrID j) (URL j) (CallbackURL j) (Extra j) (DownloadTimeout j)
        (DownloadState j) (DownloadMeta j) (CallbackState j) (CallbackMeta j) c.

Definition setCallbackState (s : State) (j : Job) : Job :=
  mkJob (ID j) (AggrID j) (URL j) (CallbackURL j) (Extra j) (DownloadTimeout j)
        (DownloadState j) (DownloadMeta j) s (CallbackMeta j) (CallbackCount j).

Definition setCallbackMeta (m : string) (j : Job) : Job :=
  mkJob (ID j) (AggrID j) (URL j) (CallbackURL j) (Extra j) (DownloadTimeout j)
        (DownloadState j) (DownloadMeta j) (CallbackState j) m (CallbackCount j).

End job.

(** ** The outside world *)

(** [CallbackInfo] holds info to be posted back to the provided callback url. *)
Module CallbackInfo.

Record t := mk {
  Success : bool;
  Error : string;
  Extra : string;
  DownloadURL : string
}.

End CallbackInfo.

(** What the HTTP client's [Post] hands back: a transport error, or a response
    with its [StatusCode] and [Status] line. *)
Inductive PostResult :=
| PostError (err : string)
| PostResponse (StatusCode : Z) (Status : string).

(** Every call that leaves the notifier, in the order it is made. *)
Inductive Call :=
| CallSaveJob (j : job.Job)
| CallGetJob (id : string)
| CallRemoveJob (id : string)
| CallQueuePendingCallback (j : job.Job)
| CallPopCallback
| CallScan (cursor : nat) (pattern : string) (count : nat)
| CallHGet (key field : string)
| CallPost (url contentType body : string).

(** Lines written through [n.Log]. *)
Inductive LogEntry :=
| Println (s : string)
| PrintfRogue (rogueCount : N).

(** The store is a table of job records keyed by job ID and the queue of
    jobs awaiting their callback.  [faults] scripts the outcome of the
    coming store calls, one entry per call: [None] lets the call through,
    [Some e] makes it return the error [e] and leave the store as it was;
    an exhausted script lets every call through. *)
Record World := mkWorld {
  jobs : gmap string job.Job;
  callbackQueue : list job.Job;
  faults : list error;
  logs : list LogEntry;
  calls : list Call
}.

(** ** State passing *)
Definition M (A : Type) : Type := World -> A * World.

Definition ret {A} (a : A) : M A := fun w => (a, w).

Definition bind {A B} (m : M A) (k : A -> M B) : M B :=
  fun w => let (a, w') := m w in k a w'.

Notation "x <- m ;; k" := (bind m (fun x => k))
  (at level 100, m at next level, right associativity, only parsing).
Notation "m ;;; k" := (bind m (fun _ => k))
  (at level 100, right associativity, only parsing).

Definition logLine (l : LogEntry) : M unit :=
  fun w => (tt, mkWorld (jobs w) (callbackQueue w) (faults w) (logs w ++ [l]) (calls w)).

Definition record (c : Call) : M unit :=
  fun w => (tt, mkWorld (jobs w) (callbackQueue w) (faults w) (logs w) (calls w ++ [c])).

(** Takes the outcome scripted for the coming store call. *)
Definition nextFault : M error :=
  fun w => match faults w with
           | [] => (None, w)
           | f :: fs => (f, mkWorld (jobs w) (callbackQueue w) fs (logs w) (calls w))
           end.

Definition setJobs (f : gmap string job.Job -> gmap string job.Job) : M unit :=
  fun w => (tt, mkWorld (f (jobs w)) (callbackQueue w) (faults w) (logs w) (calls w)).

Definition setQueue (f : list job.Job -> list job.Job) : M unit :=
  fun w => (tt, mkWorld (jobs w) (f (callbackQueue w)) (faults w) (logs w) (calls w)).

Definition getWorld : M World := fun w => (w, w).

(** ** Package [strings] *)
Module strings.

Fixpoint stripPrefix (prefix s : string) : option string :=
  match prefix with
  | EmptyString => Some s
  | String a prefix' =>
      match s with
      | EmptyString => None
      | String b s' => if Ascii.eqb a b then stripPrefix prefix' s' else None
      end
  end.

(** [strings.TrimPrefix]: [s] without the leading [prefix], or [s] itself
    when it does not start with [prefix]. *)
Definition TrimPrefix (s prefix : string) : string :=
  match stripPrefix prefix s with
  | Some rest => rest
  | None => s
  end.

(** [strings.Join]. *)
Definition Join (elems : list string) (sep : string) : string :=
  String.concat sep elems.

End strings.

(** ** Package [storage] *)
Module storage.

(** Modelled from the spec: package [storage] is not part of the sources at
    hand; the operations below follow the store contract of section 4.2 of
    the specification.  Each one records the call, takes the outcome scripted
    for it and, unless that is an error, does what the contract says. *)

(** [SaveJob(job)]: persists the full current state of a job record. *)
Definition SaveJob (j : job.Job) : M error :=
  record (CallSaveJob j) ;;;
  f <- nextFault ;;
  match f with
  | Some e => ret (Some e)
  | None => setJobs (fun js => <[job.ID j := j]> js) ;;; ret None
  end.

(** [GetJob(id)]: fetches the current record by ID; fails if absent. *)
Definition GetJob (id : string) : M (job.Job + string) :=
  record (CallGetJob id) ;;;
  f <- nextFault ;;
  match f with
  | Some e => ret (inr e)
  | None =>
      w <- getWorld ;;
      match jobs w !! id with
      | Some j => ret (inl j)
      | None => ret (inr ("Could not get job: " +:+ id))
      end
  end.

(** [RemoveJob(id)]: deletes the job record entirely. *)
Definition RemoveJob (id : string) : M error :=
  record (CallRemoveJob id) ;;;
  f <- nextFault ;;
  match f with
  | Some e => ret (Some e)
  | None => setJobs (fun js => delete id js) ;;; ret None
  end.

(** [QueuePendingCallback(job)]: (re-)enqueues a job for callback delivery. *)
Definition QueuePendingCallback (j : job.Job) : M error :=
  record (CallQueuePendingCallback j) ;;;
  f <- nextFault ;;
  match f with
  | Some e => ret (Some e)
  | None => setQueue (fun q => (q ++ [j])%list) ;;; ret None
  end.

Definition ErrEmptyQueue : string := "Queue is empty".

(** The store's other sentinel: the queue is there but busy for now. *)
Definition ErrRetryLater : string := "Retriable failure".

(** [PopCallback()]: removes and returns one job from the pending-callback
    queue, or says that the queue is empty. *)
Definition PopCallback : M (job.Job + string) :=
  record CallPopCallback ;;;
  f <- nextFault ;;
  match f with
  | Some e => ret (inr e)
  | None =>
      w <- getWorld ;;
      match callbackQueue w with
      | [] => ret (inr ErrEmptyQueue)
      | j :: q => setQueue (fun _ => q) ;;; ret (inl j)
      end
  end.

(** The keys of the job-record table, in the order the scan walks them. *)
Definition jobKeys (JobKeyPrefix : string) (w : World) : list string :=
  (fun id => JobKeyPrefix +:+ id) <$> (map_to_list (jobs w)).*1.

(** [ScanKeys(cursor, prefix, batchSize)]: a cursor-based enumeration of all
    job-record keys; the cursor is the number of keys already handed out
    and returns to 0 with the last page. *)
Definition Scan (JobKeyPrefix : string) (cursor : nat) (pattern : string) (count : nat)
  : M (list string * nat * error) :=
  record (CallScan cursor pattern count) ;;;
  f <- nextFault ;;
  match f with
  | Some e => ret ([], 0%nat, Some e)
  | None =>
      w <- getWorld ;;
      let ks := jobKeys JobKeyPrefix w in
      ret (take count (drop cursor ks),
           if Nat.ltb (cursor + count) (List.length ks) then (cursor + count)%nat else 0%nat,
           None)
  end.

(** [HGet(key, field)] on a job record's hash; the notifier reads the field
    ["CallbackState"] only. *)
Definition HGet (JobKeyPrefix : string) (key field : string) : M (string * error) :=
  record (CallHGet key field) ;;;
  f <- nextFault ;;
  match f with
  | Some e => ret ("", Some e)
  | None =>
      w <- getWorld ;;
      match jobs w !! strings.TrimPrefix key JobKeyPrefix with
      | Some j =>
          if String.eqb field "CallbackState" then ret (job.CallbackState j, None)
          else ret ("", Some "redis: nil")
      | None => ret ("", Some "redis: nil")
      end
  end.

End storage.

(** ** Package [notifier] *)
Module notifier.

Definition maxCallbackRetries : N := 2.

(** The [*http.Client] of a notifier: its timeout in seconds and what a
    [Post] of a body to a URL comes back with. *)
Record Client := mkClient {
  Timeout : Z;
  Post : string -> string -> string -> PostResult
}.

(** [Notifier] is the component responsible for consuming the result of jobs
    and notifying back the respective users.  Its [Storage] and [Log] are
    the [World]; its channel belongs to [Start]. *)
Record Notifier := mkNotifier {
  DownloadURL : url.URL;
  concurrency : Z;
  client : Client
}.

Section Notifier.

(** Library functions of Go the notifier calls: [url.ParseRequestURI],
    [path.Join], [(url.URL).String], [json.Marshal] and the transport under
    the HTTP client. *)
Variable ParseRequestURI : string -> url.URL + string.
Variable pathJoin : string -> string -> string.
Variable URLString : url.URL -> string.
Variable jsonMarshal : CallbackInfo.t -> string + string.
Variable transport : string -> string -> string -> PostResult.

(** [storage.JobKeyPrefix], a constant of the store. *)
Variable JobKeyPrefix : string.

(** [New] takes the concurrency of the notifier as an argument. *)
Definition New (concurrency : Z) (dwnlURL : string) : Notifier + string :=
  match ParseRequestURI dwnlURL with
  | inr err => inr ("Could not parse Download URL, " +:+ err)
  | inl url =>
      if (concurrency <=? 0)%Z
      then inr "Notifier Concurrency must be a positive number"
      else inl (mkNotifier url concurrency (mkClient 3 transport))
  end.

(** [jobDownloadURL] constructs the actual download URL to be provided to
    the user. *)
Definition jobDownloadURL (j : job.Job) (downloadURL : url.URL) : string :=
  if decide (job.DownloadState j ≠ job.StateSuccess) then ""
  else URLString (url.withPath (pathJoin (url.Path downloadURL) (job.ID j)) downloadURL).

(** [getCallbackInfo] validates that the job is good for callback and
    returns the callback info to the caller. *)
Definition getCallbackInfo (n : Notifier) (j : job.Job) : CallbackInfo.t + string :=
  if decide (job.DownloadState j ≠ job.StateSuccess ∧ job.DownloadState j ≠ job.StateFailed)
  then inr ("Invalid job download state: '" +:+ job.DownloadState j +:+ "'")
  else inl (CallbackInfo.mk
              (bool_decide (job.DownloadState j = job.StateSuccess))
              (job.DownloadMeta j)
              (job.Extra j)
              (jobDownloadURL j (DownloadURL n))).

Definition markCbInProgress (n : Notifier) (j : job.Job) : M (job.Job * error) :=
  let j := job.setCallbackState job.StateInProgress j in
  let j := job.setCallbackMeta "" j in
  err <- storage.SaveJob j ;;
  ret (j, err).

Definition newline : string := String (Ascii.ascii_of_nat 10) EmptyString.

Definition markCbFailed (n : Notifier) (j : job.Job) (meta : list string) : M (job.Job * error) :=
  let j := job.setCallbackState job.StateFailed j in
  let j := job.setCallbackMeta (strings.Join meta newline) j in
  logLine (Println ("Callback failed: {" +:+ job.ID j +:+ ", " +:+ job.AggrID j
                    +:+ "}, destination " +:+ job.CallbackURL j)) ;;;
  err <- storage.SaveJob j ;;
  ret (j, err).

(** [retryOrFail] checks the callback count of the current download and
    retries the callback if its retry count < maxRetries, else it marks it
    as failed. *)
Definition retryOrFail (n : Notifier) (j : job.Job) (err : string) : M (job.Job * error) :=
  if (maxCallbackRetries <=? job.CallbackCount j)%N
  then markCbFailed n j [err]
  else e <- storage.QueuePendingCallback j ;; ret (j, e).

(** [Notify] posts callback info to [j.CallbackURL]. *)
Definition Notify (n : Notifier) (j : job.Job) : M (job.Job * error) :=
  let j := job.setCallbackCount (job.CallbackCount j + 1)%N j in
  r <- markCbInProgress n j ;;
  let '(j, err) := r in
  match err with
  | Some e => ret (j, Some e)
  | None =>
      match getCallbackInfo n j with
      | inr e => markCbFailed n j [e]
      | inl cbInfo =>
          match jsonMarshal cbInfo with
          | inr e => markCbFailed n j [e]
          | inl cb =>
              record (CallPost (job.CallbackURL j) "application/json" cb) ;;;
              match Post (client n) (job.CallbackURL j) "application/json" cb with
              | PostError e => retryOrFail n j e
              | PostResponse StatusCode Status =>
                  if ((StatusCode <? 200) || (StatusCode >=? 300))%Z
                  then retryOrFail n j ("Received Status: " +:+ Status)
                  else e <- storage.RemoveJob (job.ID j) ;; ret (j, e)
              end
          end
      end
  end.

(** The body of the scan's inner loop, [for _, jobID := range keys]:
    requeues the jobs behind [keys] whose hash says [InProgress] and counts
    them in the [uint64] [rogueCount]. *)
Fixpoint requeueRogue (keys : list string) (rogueCount : N) : M N :=
  match keys with
  | [] => ret rogueCount
  | jobID :: keys =>
      strCmd <- storage.HGet JobKeyPrefix jobID "CallbackState" ;;
      match strCmd.2 with
      | Some e => logLine (Println e) ;;; requeueRogue keys rogueCount
      | None =>
          if decide (strCmd.1 = job.StateInProgress) then
            r <- storage.GetJob (strings.TrimPrefix jobID JobKeyPrefix) ;;
            match r with
            | inr e =>
                logLine (Println ("Could not get job for Redis: " +:+ e)) ;;;
                requeueRogue keys rogueCount
            | inl jb =>
                err <- storage.QueuePendingCallback jb ;;
                match err with
                | Some e =>
                    logLine (Println ("Could not queue job for download: " +:+ e)) ;;;
                    requeueRogue keys rogueCount
                | None => requeueRogue keys ((rogueCount + 1) mod 2 ^ 64)%N
                end
            end
          else requeueRogue keys rogueCount
      end
  end.

(** The scan's outer loop, [for { ... }], one page of 50 keys per round;
    [fuel] bounds the number of rounds and [None] says it ran out. *)
Fixpoint scanRogue (fuel : nat) (cursor : nat) (rogueCount : N) : M (option N) :=
  match fuel with
  | O => ret None
  | S fuel =>
      r <- storage.Scan JobKeyPrefix cursor (JobKeyPrefix +:+ "*") 50 ;;
      let '(keys, cursor, err) := r in
      match err with
      | Some e => logLine (Println e) ;;; ret (Some rogueCount)
      | None =>
          rogueCount <- requeueRogue keys rogueCount ;;
          if Nat.eqb cursor 0 then ret (Some rogueCount)
          else scanRogue fuel cursor rogueCount
      end
  end.

(** [collectRogueCallbacks] scans the store for jobs that have [InProgress]
    callback state.  This indicates they are leftover from an interrupted
    previous run and should get requeued. *)
Definition collectRogueCallbacks (n : Notifier) (fuel : nat) : M (option unit) :=
  r <- scanRogue fuel 0 0%N ;;
  match r with
  | None => ret None
  | Some rogueCount =>
      if (0 <? rogueCount)%N
      then logLine (PrintfRogue rogueCount) ;;; ret (Some tt)
      else ret (Some tt)
  end.


(** The [default] branch of the dispatch loop of [Start]: the job to hand to
    the workers, or [None] when the dispatcher sleeps a second and goes
    round again.  The sentinels are told apart by their message. *)
Definition dispatch (n : Notifier) : M (option job.Job) :=
  r <- storage.PopCallback ;;
  match r with
  | inr err =>
      (if decide (err = storage.ErrEmptyQueue) then ret tt
       else if decide (err = storage.ErrRetryLater) then ret tt
       else logLine (Println err)) ;;;
      ret None
  | inl job => ret (Some job)
  end.




(** ** The vocabulary of the properties *)

(** The job as [Notify] first persists it: one more attempt counted, callback
    state [InProgress], callback meta cleared. *)
Definition attempt (j : job.Job) : job.Job :=
  job.setCallbackMeta ""
    (job.setCallbackState job.StateInProgress
       (job.setCallbackCount (job.CallbackCount j + 1)%N j)).

(** A job is eligible for its callback once its download has concluded. *)
Definition eligible (j : job.Job) : Prop :=
  job.DownloadState j = job.StateSuccess ∨ job.DownloadState j = job.StateFailed.

(** The error a [Post] outcome counts as, if any: a transport error, or a
    status outside 200-299. *)
Definition deliveryError (r : PostResult) : error :=
  match r with
  | PostError e => Some e
  | PostResponse StatusCode Status =>
      if ((StatusCode <? 200) || (StatusCode >=? 300))%Z
      then Some ("Received Status: " +:+ Status)
      else None
  end.

(** The outcome scripted for the coming store call. *)
Definition comingFault (w : World) : error := (nextFault w).1.

(** The payload [getCallbackInfo] builds for an eligible job. *)
Definition payload (n : Notifier) (j : job.Job) : CallbackInfo.t :=
  CallbackInfo.mk (bool_decide (job.DownloadState j = job.StateSuccess))
    (job.DownloadMeta j) (job.Extra j) (jobDownloadURL j (DownloadURL n)).

(** The world once [markCbInProgress] has persisted the attempt. *)
Definition claimed (j : job.Job) (w : World) : World :=
  mkWorld (<[job.ID j := attempt j]> (jobs w)) (callbackQueue w) (tail (faults w))
    (logs w) (calls w ++ [CallSaveJob (attempt j)]).

(** The world once the payload has been posted. *)
Definition posted (j : job.Job) (body : string) (w : World) : World :=
  mkWorld (<[job.ID j := attempt j]> (jobs w)) (callbackQueue w) (tail (faults w))
    (logs w)
    (calls w ++ [CallSaveJob (attempt j);
                 CallPost (job.CallbackURL j) "application/json" body]).

(** The job as [markCbFailed] leaves it. *)
Definition failedJob (j : job.Job) (reason : string) : job.Job :=
  job.setCallbackMeta reason (job.setCallbackState job.StateFailed j).

Definition failureLine (j : job.Job) : LogEntry :=
  Println ("Callback failed: {" +:+ job.ID j +:+ ", " +:+ job.AggrID j
           +:+ "}, destination " +:+ job.CallbackURL j).

(** The calls that may follow the first [SaveJob] of an attempt on [j]. *)
Definition laterCall (j : job.Job) (c : Call) : Prop :=
  (∃ reason, c = CallSaveJob (failedJob (attempt j) reason))
  ∨ (∃ body, c = CallPost (job.CallbackURL j) "application/json" body)
  ∨ c = CallQueuePendingCallback (attempt j)
  ∨ c = CallRemoveJob (job.ID j).

(** The world after one store call that left the store as it was. *)
Definition afterCall (c : Call) (w : World) : World :=
  mkWorld (jobs w) (callbackQueue w) (tail (faults w)) (logs w) (calls w ++ [c]).

(** No scripted outcome is an error. *)
Definition quiet (w : World) : Prop := Forall (λ f : error, f = None) (faults w).



Definition inProgress (j : job.Job) : Prop := job.CallbackState j = job.StateInProgress.

#[local] Instance inProgress_dec j : Decision (inProgress j).
Proof. unfold inProgress. apply _. Defined.

(** The key under which the scan meets a record. *)
Definition keyOf (p : string * job.Job) : string := JobKeyPrefix +:+ p.1.

(** How one attempt can end: the opening save failed; the job was marked
    failed, before any POST ([None]) or after a POST of [body]; the job was
    put back on the queue; the job was removed. *)
Inductive Outcome :=
| PersistFailed (e : string)
| MarkedFailed (reason : string) (body : option string)
| Requeued (body reason : string)
| Removed (body : string).

(** The world in which the attempt's last store call is made. *)
Definition lastStage (j : job.Job) (w : World) (body : option string) : World :=
  match body with
  | None => claimed j w
  | Some b => posted j b w
  end.

(** What [Notify] returns, and the world it leaves, for each outcome. *)
Definition resultOf (j : job.Job) (w : World) (o : Outcome) : job.Job * error * World :=
  match o with
  | PersistFailed e => (attempt j, Some e, afterCall (CallSaveJob (attempt j)) w)
  | MarkedFailed reason body =>
      let w1 := lastStage j w body in
      (failedJob (attempt j) reason, comingFault w1,
       mkWorld
         (match comingFault w1 with
          | None => <[job.ID j := failedJob (attempt j) reason]> (jobs w1)
          | Some _ => jobs w1
          end)
         (callbackQueue w1) (tail (faults w1)) (logs w1 ++ [failureLine (attempt j)])
         (calls w1 ++ [CallSaveJob (failedJob (attempt j) reason)]))
  | Requeued body _ =>
      let w1 := posted j body w in
      (attempt j, comingFault w1,
       mkWorld (jobs w1)
         (match comingFault w1 with
          | None => callbackQueue w1 ++ [attempt j]
          | Some _ => callbackQueue w1
          end)
         (tail (faults w1)) (logs w1) (calls w1 ++ [CallQueuePendingCallback (attempt j)]))
  | Removed body =>
      let w1 := posted j body w in
      (attempt j, comingFault w1,
       mkWorld
         (match comingFault w1 with
          | None => delete (job.ID j) (jobs w1)
          | Some _ => jobs w1
          end)
         (callbackQueue w1) (tail (faults w1)) (logs w1)
         (calls w1 ++ [CallRemoveJob (job.ID j)]))
  end.

(** When each outcome is the one that happens. *)
Definition happens (n : Notifier) (j : job.Job) (w : World) (o : Outcome) : Prop :=
  match o with
  | PersistFailed e => comingFault w = Some e
  | MarkedFailed reason None =>
      comingFault w = None
      ∧ ((¬ eligible j
          ∧ reason = "Invalid job download state: '" +:+ job.DownloadState j +:+ "'")
         ∨ (eligible j ∧ jsonMarshal (payload n j) = inr reason))
  | MarkedFailed reason (Some body) =>
      comingFault w = None ∧ eligible j ∧ jsonMarshal (payload n j) = inl body
      ∧ deliveryError (Post (client n) (job.CallbackURL j) "application/json" body)
        = Some reason
      ∧ (2 <= job.CallbackCount j + 1)%N
  | Requeued body reason =>
      comingFault w = None ∧ eligible j ∧ jsonMarshal (payload n j) = inl body
      ∧ deliveryError (Post (client n) (job.CallbackURL j) "application/json" body)
        = Some reason
      ∧ (job.CallbackCount j + 1 < 2)%N
  | Removed body =>
      comingFault w = None ∧ eligible j ∧ jsonMarshal (payload n j) = inl body
      ∧ deliveryError (Post (client n) (job.CallbackURL j) "application/json" body) = None
  end.



(** The calls the recovery scan makes. *)
Definition scanCall (c : Call) : Prop :=
  match c with
  | CallScan _ _ _ | CallHGet _ _ | CallGetJob _ | CallQueuePendingCallback _ => True
  | _ => False
  end.

(** A record of the table whose callback state is [InProgress]. *)
Definition rogueOf (w : World) (j : job.Job) : Prop :=
  ∃ id, jobs w !! id = Some j ∧ inProgress j.

(** What a stretch of the recovery scan may have done between [w] and [w']:
    the table is as it was; the queue has gained [k] jobs, each a record of
    the table in [InProgress]; the log has gained plain lines; the calls
    made are the scan's. *)
Definition scanned (w w' : World) (k : nat) : Prop :=
  jobs w' = jobs w
  ∧ ∃ added lines cs,
      callbackQueue w' = callbackQueue w ++ added
      ∧ length added = k
      ∧ Forall (rogueOf w) added
      ∧ logs w' = logs w ++ lines
      ∧ Forall (λ l, ∃ s, l = Println s) lines
      ∧ calls w' = calls w ++ cs
      ∧ Forall scanCall cs.

(** The callback of the job with this ID has reached its end: its record is
    gone from the table, or is kept as [Failed]. *)
Definition settled (w : World) (id : string) : Prop :=
  match jobs w !! id with
  | None => True
  | Some j => job.CallbackState j = job.StateFailed
  end.


(** ** Construction and the payload *)

Lemma getCallbackInfo_attempt n j :
  getCallbackInfo n (attempt j) = getCallbackInfo n j.
Proof. reflexivity. Qed.

Lemma getCallbackInfo_eligible n j :
  eligible j ->
  getCallbackInfo n j =
    inl (CallbackInfo.mk (bool_decide (job.DownloadState j = job.StateSuccess))
           (job.DownloadMeta j) (job.Extra j) (jobDownloadURL j (DownloadURL n))).
Proof.
  intros He. unfold getCallbackInfo.
  destruct (decide _) as [[H1 H2]|_]; [|reflexivity].
  destruct He; contradiction.
Qed.

Lemma getCallbackInfo_ineligible n j :
  ¬ eligible j ->
  getCallbackInfo n j =
    inr ("Invalid job download state: '" +:+ job.DownloadState j +:+ "'").
Proof.
  intros He. unfold getCallbackInfo.
  destruct (decide _) as [_|H]; [reflexivity|].
  exfalso. apply He. unfold eligible.
  destruct (decide (job.DownloadState j = job.StateSuccess)); [by left|].
  destruct (decide (job.DownloadState j = job.StateFailed)); [by right|].
  by destruct H.
Qed.



(** ** One delivery attempt, step by step *)

Ltac run :=
  unfold storage.SaveJob, storage.RemoveJob, storage.QueuePendingCallback,
    storage.GetJob, storage.HGet, storage.Scan,
    bind, ret, record, nextFault, setJobs, setQueue, logLine, getWorld;
  cbn [fst snd jobs callbackQueue faults logs calls].

Lemma comingFault_cases w :
  (comingFault w = None ∧ (faults w = [] ∨ ∃ fs, faults w = None :: fs))
  ∨ (∃ e fs, comingFault w = Some e ∧ faults w = Some e :: fs).
Proof.
  unfold comingFault, nextFault. destruct (faults w) as [|[e|] fs]; cbn; eauto.
Qed.

Lemma Notify_persist_fails n j w e :
  comingFault w = Some e ->
  Notify n j w =
    (attempt j, Some e,
     mkWorld (jobs w) (callbackQueue w) (tail (faults w)) (logs w)
       (calls w ++ [CallSaveJob (attempt j)])).
Proof.
  intros Hf. destruct (comingFault_cases w) as [[Hn _]|(e' & fs & He & Hfs)];
    [congruence|]. assert (e' = e) as -> by congruence.
  unfold Notify, markCbInProgress. run. rewrite Hfs. reflexivity.
Qed.

Lemma Notify_ineligible n j w :
  comingFault w = None -> ¬ eligible j ->
  Notify n j w =
    markCbFailed n (attempt j)
      ["Invalid job download state: '" +:+ job.DownloadState j +:+ "'"] (claimed j w).
Proof.
  intros Hf He. unfold Notify, markCbInProgress, claimed.
  destruct (comingFault_cases w) as [[_ [Hfs|[fs Hfs]]]|(e' & fs & He' & _)];
    [| |congruence]; run; rewrite Hfs; cbn [tail];
    fold (attempt j); rewrite getCallbackInfo_attempt, getCallbackInfo_ineligible by done;
    reflexivity.
Qed.

Lemma Notify_delivers n j w body :
  comingFault w = None -> eligible j -> jsonMarshal (payload n j) = inl body ->
  Notify n j w =
    match deliveryError (Post (client n) (job.CallbackURL j) "application/json" body) with
    | Some reason => retryOrFail n (attempt j) reason (posted j body w)
    | None =>
        bind (storage.RemoveJob (job.ID j)) (fun e => ret (attempt j, e)) (posted j body w)
    end.
Proof.
  intros Hf He Hm. unfold Notify, markCbInProgress, posted.
  assert (Hw : ∀ js q fs lg cs,
    (let j0 := attempt j in
     match getCallbackInfo n j0 with
     | inr e => markCbFailed n j0 [e]
     | inl cbInfo =>
         match jsonMarshal cbInfo with
         | inr e => markCbFailed n j0 [e]
         | inl cb =>
             bind (record (CallPost (job.CallbackURL j0) "application/json" cb))
               (fun _ =>
                match Post (client n) (job.CallbackURL j0) "application/json" cb with
                | PostError e => retryOrFail n j0 e
                | PostResponse StatusCode Status =>
                    if ((StatusCode <? 200) || (StatusCode >=? 300))%Z
                    then retryOrFail n j0 ("Received Status: " +:+ Status)
                    else bind (storage.RemoveJob (job.ID j0)) (fun e => ret (j0, e))
                end)
         end
     end) (mkWorld js q fs lg (cs ++ [CallSaveJob (attempt j)])) =
    match deliveryError (Post (client n) (job.CallbackURL j) "application/json" body) with
    | Some reason =>
        retryOrFail n (attempt j) reason
          (mkWorld js q fs lg
             (cs ++ [CallSaveJob (attempt j);
                     CallPost (job.CallbackURL j) "application/json" body]))
    | None =>
        bind (storage.RemoveJob (job.ID j)) (fun e => ret (attempt j, e))
          (mkWorld js q fs lg
             (cs ++ [CallSaveJob (attempt j);
                     CallPost (job.CallbackURL j) "application/json" body]))
    end).
  { intros. cbv zeta. rewrite getCallbackInfo_attempt, getCallbackInfo_eligible by done.
    fold (payload n j). rewrite Hm.
    unfold bind at 1, record. cbn [fst snd jobs callbackQueue faults logs calls].
    rewrite <- app_assoc. cbn [app].
    change (job.CallbackURL (attempt j)) with (job.CallbackURL j).
    change (job.ID (attempt j)) with (job.ID j).
    unfold deliveryError.
    destruct (Post (client n) (job.CallbackURL j) "application/json" body) as [e|c st];
      [reflexivity|].
    destruct ((c <? 200)%Z || (c >=? 300)%Z); reflexivity. }
  destruct (comingFault_cases w) as [[_ [Hfs|[fs Hfs]]]|(e' & fs & He' & _)];
    [| |congruence]; run; rewrite Hfs; cbn [tail]; apply Hw.
Qed.

Lemma Notify_marshal_fails n j w e :
  comingFault w = None -> eligible j -> jsonMarshal (payload n j) = inr e ->
  Notify n j w = markCbFailed n (attempt j) [e] (claimed j w).
Proof.
  intros Hf He Hm. unfold Notify, markCbInProgress, claimed.
  destruct (comingFault_cases w) as [[_ [Hfs|[fs Hfs]]]|(e' & fs & He' & _)];
    [| |congruence]; run; rewrite Hfs; cbn [tail];
    fold (attempt j); rewrite getCallbackInfo_attempt, getCallbackInfo_eligible by done;
    fold (payload n j); rewrite Hm; reflexivity.
Qed.

Lemma markCbFailed_run n j reason w :
  markCbFailed n j [reason] w =
    (failedJob j reason, comingFault w,
     mkWorld
       (match comingFault w with
        | None => <[job.ID j := failedJob j reason]> (jobs w)
        | Some _ => jobs w
        end)
       (callbackQueue w) (tail (faults w)) (logs w ++ [failureLine j])
       (calls w ++ [CallSaveJob (failedJob j reason)])).
Proof.
  unfold markCbFailed, comingFault. run.
  destruct (faults w) as [|[e|] fs]; reflexivity.
Qed.

Lemma QueuePendingCallback_run j w :
  storage.QueuePendingCallback j w =
    (comingFault w,
     mkWorld (jobs w)
       (match comingFault w with
        | None => callbackQueue w ++ [j]
        | Some _ => callbackQueue w
        end)
       (tail (faults w)) (logs w) (calls w ++ [CallQueuePendingCallback j])).
Proof.
  unfold comingFault. run. destruct (faults w) as [|[e|] fs]; reflexivity.
Qed.

Lemma RemoveJob_run id w :
  storage.RemoveJob id w =
    (comingFault w,
     mkWorld
       (match comingFault w with
        | None => delete id (jobs w)
        | Some _ => jobs w
        end)
       (callbackQueue w) (tail (faults w)) (logs w) (calls w ++ [CallRemoveJob id])).
Proof.
  unfold comingFault. run. destruct (faults w) as [|[e|] fs]; reflexivity.
Qed.

Lemma retryOrFail_fail n j reason w :
  (maxCallbackRetries <= job.CallbackCount j)%N ->
  retryOrFail n j reason w = markCbFailed n j [reason] w.
Proof.
  intros H. unfold retryOrFail. apply N.leb_le in H. by rewrite H.
Qed.

Lemma retryOrFail_retry n j reason w :
  (job.CallbackCount j < maxCallbackRetries)%N ->
  retryOrFail n j reason w =
    (j, comingFault w, (storage.QueuePendingCallback j w).2).
Proof.
  intros H. unfold retryOrFail. apply N.leb_gt in H. rewrite H.
  unfold bind, ret. rewrite QueuePendingCallback_run. reflexivity.
Qed.

(** ** The retry/fail policy *)

(** C1.  After a delivery attempt that fails (a transport error or a status
    outside 200-299) the job ends marked [Failed] exactly when its callback
    count, incremented by this attempt, has reached the ceiling of 2: then
    the reason is recorded in the callback meta and the record is saved;
    below the ceiling the job is instead pushed onto the pending-callback
    queue. *)
Theorem Notify_failure_retry_or_fail (n : Notifier) (j : job.Job) (w : World)
    (body reason : string)
    (Hsave : comingFault w = None)
    (Hel : eligible j)
    (Hbody : jsonMarshal (payload n j) = inl body)
    (Hfail : deliveryError (Post (client n) (job.CallbackURL j) "application/json" body)
             = Some reason) :
  ∃ j' err w', Notify n j w = (j', err, w')
    ∧ job.CallbackCount j' = (job.CallbackCount j + 1)%N
    ∧ (job.CallbackState j' = job.StateFailed ↔ (2 <= job.CallbackCount j')%N)
    ∧ ((2 <= job.CallbackCount j')%N →
         j' = failedJob (attempt j) reason
         ∧ job.CallbackMeta j' = reason
         ∧ calls w' = calls w ++ [CallSaveJob (attempt j);
                                  CallPost (job.CallbackURL j) "application/json" body;
                                  CallSaveJob j']
         ∧ callbackQueue w' = callbackQueue w
         ∧ (err = None → jobs w' !! job.ID j = Some j'))
    ∧ ((job.CallbackCount j' < 2)%N →
         j' = attempt j
         ∧ calls w' = calls w ++ [CallSaveJob (attempt j);
                                  CallPost (job.CallbackURL j) "application/json" body;
                                  CallQueuePendingCallback j']
         ∧ (err = None → callbackQueue w' = callbackQueue w ++ [j'])).
Proof.
  rewrite (Notify_delivers n j w body) by done. rewrite Hfail.
  destruct (N.leb_spec 2 (job.CallbackCount (attempt j))) as [Hge|Hlt].
  - rewrite retryOrFail_fail, markCbFailed_run by done.
    do 3 eexists. split; [reflexivity|]. split; [reflexivity|].
    split; [split; [intros _; exact Hge | reflexivity]|].
    split.
    + intros _. split; [reflexivity|]. split; [reflexivity|].
      cbn [calls callbackQueue jobs posted]. rewrite <- app_assoc.
      split; [reflexivity|]. split; [reflexivity|].
      intros ->. apply lookup_insert_eq.
    + intros Hlt. exfalso.
      change (job.CallbackCount (failedJob (attempt j) reason))
        with (job.CallbackCount (attempt j)) in Hlt. lia.
  - rewrite retryOrFail_retry, QueuePendingCallback_run by done.
    do 3 eexists. split; [reflexivity|]. split; [reflexivity|].
    split; [split; [discriminate | intros H; exfalso; lia]|].
    split; [intros H; exfalso; lia|].
    intros _. split; [reflexivity|].
    cbn [calls callbackQueue jobs posted snd]. rewrite <- app_assoc.
    split; [reflexivity|]. by intros ->.
Qed.

(** C2, as the notifier does it.  A job whose download state is neither
    [Success] nor [Failed] is marked [Failed] by the very attempt that finds
    it so, whatever its callback count: the reason is recorded in the
    callback meta, the record is saved, nothing is posted and the job is
    not put back on the pending-callback queue. *)
Theorem Notify_ineligible_fails (n : Notifier) (j : job.Job) (w : World)
    (Hsave : comingFault w = None)
    (Hinel : ¬ eligible j) :
  ∃ j' err w', Notify n j w = (j', err, w')
    ∧ j' = failedJob (attempt j)
             ("Invalid job download state: '" +:+ job.DownloadState j +:+ "'")
    ∧ job.CallbackState j' = job.StateFailed
    ∧ job.CallbackCount j' = (job.CallbackCount j + 1)%N
    ∧ calls w' = calls w ++ [CallSaveJob (attempt j); CallSaveJob j']
    ∧ callbackQueue w' = callbackQueue w
    ∧ (err = None → jobs w' !! job.ID j = Some j').
Proof.
  rewrite Notify_ineligible, markCbFailed_run by done.
  do 3 eexists. split; [reflexivity|]. split; [reflexivity|].
  split; [reflexivity|]. split; [reflexivity|].
  cbn [calls callbackQueue jobs claimed]. rewrite <- app_assoc.
  split; [reflexivity|]. split; [reflexivity|].
  intros ->. apply lookup_insert_eq.
Qed.


(** ** What one attempt writes *)

Lemma eligible_dec j : {eligible j} + {¬ eligible j}.
Proof.
  unfold eligible.
  destruct (decide (job.DownloadState j = job.StateSuccess)); [left; by left|].
  destruct (decide (job.DownloadState j = job.StateFailed)); [left; by right|].
  right. by intros [?|?].
Qed.

Lemma Notify_calls n j w :
  ∃ rest, calls (Notify n j w).2 = calls w ++ CallSaveJob (attempt j) :: rest
          ∧ Forall (laterCall j) rest.
Proof.
  assert (Hsv : ∀ r, laterCall j (CallSaveJob (failedJob (attempt j) r)))
    by (intros r; left; eauto).
  assert (Hpo : ∀ b, laterCall j (CallPost (job.CallbackURL j) "application/json" b))
    by (intros b; right; left; eauto).
  assert (Hqu : laterCall j (CallQueuePendingCallback (attempt j)))
    by (right; right; by left).
  assert (Hrm : laterCall j (CallRemoveJob (job.ID j)))
    by (right; right; by right).
  destruct (comingFault_cases w) as [[Hn _]|(e & fs & He & _)].
  2:{ rewrite (Notify_persist_fails n j w e) by done. exists []. by split. }
  destruct (eligible_dec j) as [Hel|Hinel].
  2:{ rewrite Notify_ineligible, markCbFailed_run by done.
      cbn [snd calls claimed]. rewrite <- app_assoc. eexists. split; [reflexivity|].
      auto using Forall_cons, Forall_nil. }
  destruct (jsonMarshal (payload n j)) as [body|e] eqn:Hm.
  2:{ rewrite (Notify_marshal_fails n j w e), markCbFailed_run by done.
      cbn [snd calls claimed]. rewrite <- app_assoc. eexists. split; [reflexivity|].
      auto using Forall_cons, Forall_nil. }
  rewrite (Notify_delivers n j w body) by done.
  destruct (deliveryError _) as [reason|].
  - destruct (N.leb_spec maxCallbackRetries (job.CallbackCount (attempt j))).
    + rewrite retryOrFail_fail, markCbFailed_run by done.
      cbn [snd calls posted]. rewrite <- app_assoc. eexists. split; [reflexivity|].
      auto using Forall_cons, Forall_nil.
    + rewrite retryOrFail_retry, QueuePendingCallback_run by done.
      cbn [snd calls posted]. rewrite <- app_assoc. eexists. split; [reflexivity|].
      auto using Forall_cons, Forall_nil.
  - unfold bind, ret. rewrite RemoveJob_run.
    cbn [snd calls posted]. rewrite <- app_assoc. eexists. split; [reflexivity|].
    auto using Forall_cons, Forall_nil.
Qed.

(** C6.  Every attempt begins by saving the job with its callback count one
    higher, its callback state [InProgress] and its callback meta cleared;
    when that save fails, [Notify] returns its error, having posted nothing
    and made no other call, with the table and the queue as they were. *)
Theorem Notify_begins_by_persisting (n : Notifier) (j : job.Job) (w : World) :
  attempt j =
    job.mkJob (job.ID j) (job.AggrID j) (job.URL j) (job.CallbackURL j) (job.Extra j)
      (job.DownloadTimeout j) (job.DownloadState j) (job.DownloadMeta j) job.StateInProgress ""
      (job.CallbackCount j + 1)%N
  ∧ (∃ rest, calls (Notify n j w).2 = calls w ++ CallSaveJob (attempt j) :: rest)
  ∧ (∀ e, comingFault w = Some e →
       ∃ w', Notify n j w = (attempt j, Some e, w')
             ∧ calls w' = calls w ++ [CallSaveJob (attempt j)]
             ∧ jobs w' = jobs w
             ∧ callbackQueue w' = callbackQueue w).
Proof.
  split; [reflexivity|]. split.
  - destruct (Notify_calls n j w) as (rest & Hc & _). eauto.
  - intros e He. rewrite (Notify_persist_fails n j w e) by done.
    eexists. split; [reflexivity|]. done.
Qed.

(** C9.  When a failed attempt is put back for a retry (the callback count
    is still below the ceiling), the attempt makes exactly three calls: the
    save that opens it, the POST, and the push onto the pending-callback
    queue; the stored record is the one saved at the start, [InProgress]
    with the incremented count, and no save of any attempt carries the
    callback state [Pending]. *)
Theorem Notify_retry_leaves_in_progress (n : Notifier) (j : job.Job) (w : World)
    (body reason : string)
    (Hsave : comingFault w = None)
    (Hel : eligible j)
    (Hbody : jsonMarshal (payload n j) = inl body)
    (Hfail : deliveryError (Post (client n) (job.CallbackURL j) "application/json" body)
             = Some reason)
    (Hbelow : (job.CallbackCount j + 1 < 2)%N) :
  (∃ err w', Notify n j w = (attempt j, err, w')
     ∧ calls w' = calls w ++ [CallSaveJob (attempt j);
                              CallPost (job.CallbackURL j) "application/json" body;
                              CallQueuePendingCallback (attempt j)]
     ∧ jobs w' = <[job.ID j := attempt j]> (jobs w)
     ∧ (∃ stored, jobs w' !! job.ID j = Some stored
          ∧ job.CallbackState stored = job.StateInProgress
          ∧ job.CallbackCount stored = (job.CallbackCount j + 1)%N))
  ∧ (∀ n0 j0 w0 rest j',
       calls (Notify n0 j0 w0).2 = calls w0 ++ rest →
       CallSaveJob j' ∈ rest → job.CallbackState j' ≠ job.StatePending).
Proof.
  split.
  - rewrite (Notify_delivers n j w body) by done. rewrite Hfail.
    rewrite retryOrFail_retry, QueuePendingCallback_run by done.
    do 2 eexists. split; [reflexivity|].
    cbn [snd calls jobs posted]. rewrite <- app_assoc.
    split; [reflexivity|]. split; [reflexivity|].
    exists (attempt j). split; [apply lookup_insert_eq|]. done.
  - intros n0 j0 w0 rest j' Hc Hin.
    destruct (Notify_calls n0 j0 w0) as (rest' & Hc' & Hall).
    rewrite Hc' in Hc. apply app_inv_head in Hc. subst rest.
    apply elem_of_cons in Hin as [Heq|Hin].
    + injection Heq as ->. discriminate.
    + rewrite Forall_forall in Hall. apply Hall in Hin.
      destruct Hin as [[r Hr]|[[b Hb]|[Hq|Hr]]]; try discriminate.
      injection Hr as ->. discriminate.
Qed.

(** ** The recovery scan *)

Lemma quiet_comingFault w : quiet w → comingFault w = None.
Proof.
  unfold quiet, comingFault, nextFault. destruct (faults w) as [|f fs]; [done|].
  intros H. by inversion H.
Qed.

Lemma quiet_tail w : quiet w → Forall (λ f : error, f = None) (tail (faults w)).
Proof.
  unfold quiet. destruct (faults w) as [|f fs]; [done|]. intros H. by inversion H.
Qed.


Lemma Scan_run cursor pattern count w :
  storage.Scan JobKeyPrefix cursor pattern count w =
    match comingFault w with
    | Some e => ([], 0, Some e, afterCall (CallScan cursor pattern count) w)
    | None =>
        (take count (drop cursor (storage.jobKeys JobKeyPrefix w)),
         if Nat.ltb (cursor + count) (length (storage.jobKeys JobKeyPrefix w))
         then cursor + count else 0,
         None, afterCall (CallScan cursor pattern count) w)
    end.
Proof.
  unfold comingFault, afterCall. run. destruct (faults w) as [|[e|] fs]; reflexivity.
Qed.

Lemma HGet_run key w :
  storage.HGet JobKeyPrefix key "CallbackState" w =
    (match comingFault w with
     | Some e => ("", Some e)
     | None =>
         match jobs w !! strings.TrimPrefix key JobKeyPrefix with
         | Some j => (job.CallbackState j, None)
         | None => ("", Some "redis: nil")
         end
     end, afterCall (CallHGet key "CallbackState") w).
Proof.
  unfold comingFault, afterCall. run.
  destruct (faults w) as [|[e|] fs]; cbn [fst snd jobs];
    try reflexivity; by destruct (_ !! _).
Qed.

Lemma GetJob_run id w :
  storage.GetJob id w =
    (match comingFault w with
     | Some e => inr e
     | None =>
         match jobs w !! id with
         | Some j => inl j
         | None => inr ("Could not get job: " +:+ id)
         end
     end, afterCall (CallGetJob id) w).
Proof.
  unfold comingFault, afterCall. run.
  destruct (faults w) as [|[e|] fs]; cbn [fst snd jobs];
    try reflexivity; by destruct (_ !! _).
Qed.

(** C10.  When the key scan of a page returns an error, the scan loop logs
    it and ends there: no further call is made, the queue stays as it was,
    so nothing a later page would have found is requeued; and
    [collectRogueCallbacks] still returns, leaving the notifier to go on. *)
Theorem scan_error_abandons (n : Notifier) (fuel cursor : nat) (rogueCount : N)
    (w : World) (e : string)
    (Herr : comingFault w = Some e) :
  scanRogue (S fuel) cursor rogueCount w =
    (Some rogueCount,
     mkWorld (jobs w) (callbackQueue w) (tail (faults w)) (logs w ++ [Println e])
       (calls w ++ [CallScan cursor (JobKeyPrefix +:+ "*") 50]))
  ∧ (collectRogueCallbacks n (S fuel) w).1 = Some tt
  ∧ callbackQueue (collectRogueCallbacks n (S fuel) w).2 = callbackQueue w
  ∧ calls (collectRogueCallbacks n (S fuel) w).2
    = calls w ++ [CallScan 0 (JobKeyPrefix +:+ "*") 50].
Proof.
  assert (Hs : ∀ c rc, scanRogue (S fuel) c rc w =
    (Some rc,
     mkWorld (jobs w) (callbackQueue w) (tail (faults w)) (logs w ++ [Println e])
       (calls w ++ [CallScan c (JobKeyPrefix +:+ "*") 50]))).
  { intros c rc. cbn [scanRogue]. unfold bind at 1. rewrite Scan_run, Herr.
    reflexivity. }
  split; [apply Hs|].
  unfold collectRogueCallbacks, bind. rewrite Hs.
  destruct (0 <? 0)%N eqn:H0; [discriminate|]. done.
Qed.




Lemma jobKeys_keyOf w :
  storage.jobKeys JobKeyPrefix w = keyOf <$> map_to_list (jobs w).
Proof. unfold storage.jobKeys. by rewrite <- list_fmap_compose. Qed.








(** ** Every way an attempt can end *)

Lemma Notify_outcome n j w :
  ∃ o, happens n j w o ∧ Notify n j w = resultOf j w o.
Proof.
  destruct (comingFault_cases w) as [[Hn _]|(e & fs & He & _)].
  2:{ exists (PersistFailed e). split; [exact He|].
      by rewrite (Notify_persist_fails n j w e). }
  destruct (eligible_dec j) as [Hel|Hinel].
  2:{ eexists (MarkedFailed _ None). split; [split; [done|left; split; [done|reflexivity]]|].
      by rewrite Notify_ineligible, markCbFailed_run. }
  destruct (jsonMarshal (payload n j)) as [body|e] eqn:Hm.
  2:{ exists (MarkedFailed e None). split; [split; [done|right; by split]|].
      by rewrite (Notify_marshal_fails n j w e), markCbFailed_run. }
  rewrite (Notify_delivers n j w body) by done.
  destruct (deliveryError _) as [reason|] eqn:Hd.
  - destruct (N.leb_spec maxCallbackRetries (job.CallbackCount (attempt j))) as [Hge|Hlt].
    + exists (MarkedFailed reason (Some body)). split; [done|].
      by rewrite retryOrFail_fail, markCbFailed_run.
    + exists (Requeued body reason). split; [done|].
      by rewrite retryOrFail_retry, QueuePendingCallback_run.
  - exists (Removed body). split; [done|].
    unfold bind, ret. by rewrite RemoveJob_run.
Qed.

Lemma faults_lastStage j w body : faults (lastStage j w body) = tail (faults w).
Proof. by destruct body. Qed.

Lemma jobs_lastStage j w body :
  jobs (lastStage j w body) = <[job.ID j := attempt j]> (jobs w).
Proof. by destruct body. Qed.

Lemma callbackQueue_lastStage j w body :
  callbackQueue (lastStage j w body) = callbackQueue w.
Proof. by destruct body. Qed.

Lemma logs_lastStage j w body : logs (lastStage j w body) = logs w.
Proof. by destruct body. Qed.

Lemma quiet_step w w1 : quiet w → faults w1 = tail (faults w) → quiet w1.
Proof. unfold quiet. intros H ->. by apply quiet_tail. Qed.

(** X1.  Whatever the store and the endpoint do, the job an attempt hands
    back has its callback count exactly one higher and its submission and
    download fields as they were. *)
Theorem Notify_counts_once_keeps_submission (n : Notifier) (j : job.Job) (w : World) :
  job.CallbackCount (Notify n j w).1.1 = (job.CallbackCount j + 1)%N
  ∧ job.ID (Notify n j w).1.1 = job.ID j
  ∧ job.AggrID (Notify n j w).1.1 = job.AggrID j
  ∧ job.URL (Notify n j w).1.1 = job.URL j
  ∧ job.CallbackURL (Notify n j w).1.1 = job.CallbackURL j
  ∧ job.Extra (Notify n j w).1.1 = job.Extra j
  ∧ job.DownloadTimeout (Notify n j w).1.1 = job.DownloadTimeout j
  ∧ job.DownloadState (Notify n j w).1.1 = job.DownloadState j
  ∧ job.DownloadMeta (Notify n j w).1.1 = job.DownloadMeta j.
Proof.
  destruct (Notify_outcome n j w) as (o & _ & ->).
  destruct o; cbn; done.
Qed.

(** X2.  An attempt leaves every record of the table other than the job's
    own as it was. *)
Theorem Notify_touches_own_record_only (n : Notifier) (j : job.Job) (w : World)
    (id : string) (Hother : id ≠ job.ID j) :
  jobs (Notify n j w).2 !! id = jobs w !! id.
Proof.
  destruct (Notify_outcome n j w) as (o & _ & ->).
  destruct o as [e|reason body|body reason|body]; cbn [resultOf snd jobs afterCall];
    [done| | |].
  - destruct (comingFault _); rewrite ?jobs_lastStage;
      by rewrite ?lookup_insert_ne by done.
  - cbn [posted jobs]. by rewrite lookup_insert_ne by done.
  - destruct (comingFault _); cbn [posted jobs];
      by rewrite ?lookup_delete_ne, ?lookup_insert_ne by done.
Qed.

(** X3.  An attempt never takes anything off the pending-callback queue, and
    adds to it at most the job it hands back, still [InProgress]; it does
    so only on the job's first attempt. *)
Theorem Notify_requeues_first_attempt_only (n : Notifier) (j : job.Job) (w : World) :
  callbackQueue (Notify n j w).2 = callbackQueue w
  ∨ (callbackQueue (Notify n j w).2 = callbackQueue w ++ [(Notify n j w).1.1]
     ∧ job.CallbackCount j = 0%N
     ∧ job.CallbackState (Notify n j w).1.1 = job.StateInProgress).
Proof.
  destruct (Notify_outcome n j w) as (o & Ho & ->).
  destruct o as [e|reason body|body reason|body]; cbn [resultOf snd fst callbackQueue afterCall].
  - by left.
  - left. apply callbackQueue_lastStage.
  - destruct (comingFault _); [by left|]. right.
    split; [reflexivity|]. split; [|reflexivity].
    destruct Ho as (_ & _ & _ & _ & Hlt). lia.
  - by left.
Qed.

(** X4.  On a store that does not fail, an attempt returns no error whatever
    the endpoint answers, and leaves a store that does not fail. *)
Theorem Notify_quiet_returns_nil (n : Notifier) (j : job.Job) (w : World)
    (Hquiet : quiet w) :
  (Notify n j w).1.2 = None ∧ quiet (Notify n j w).2.
Proof.
  pose proof (quiet_comingFault w Hquiet) as Hc.
  destruct (Notify_outcome n j w) as (o & Ho & ->).
  assert (Hq1 : ∀ body, quiet (lastStage j w body)).
  { intros body. apply (quiet_step w); [done|apply faults_lastStage]. }
  destruct o as [e|reason body|body reason|body]; cbn [resultOf snd fst].
  - cbn in Ho. congruence.
  - split; [by apply quiet_comingFault|].
    apply (quiet_step (lastStage j w body)); done.
  - split; [apply quiet_comingFault, (Hq1 (Some body))|].
    apply (quiet_step (posted j body w)); [apply (Hq1 (Some body))|done].
  - split; [apply quiet_comingFault, (Hq1 (Some body))|].
    apply (quiet_step (posted j body w)); [apply (Hq1 (Some body))|done].
Qed.

(** X5.  On a store that does not fail an attempt ends in one of three
    ways: the record is gone from the table; or it is kept, [Failed];
    or it is kept, [InProgress], and the job is back on the queue.  In the
    last two the stored record is the job handed back. *)
Theorem Notify_quiet_three_ends (n : Notifier) (j : job.Job) (w : World)
    (Hquiet : quiet w) :
  (jobs (Notify n j w).2 !! job.ID j = None
   ∧ callbackQueue (Notify n j w).2 = callbackQueue w)
  ∨ (jobs (Notify n j w).2 !! job.ID j = Some (Notify n j w).1.1
     ∧ job.CallbackState (Notify n j w).1.1 = job.StateFailed
     ∧ callbackQueue (Notify n j w).2 = callbackQueue w)
  ∨ (jobs (Notify n j w).2 !! job.ID j = Some (Notify n j w).1.1
     ∧ job.CallbackState (Notify n j w).1.1 = job.StateInProgress
     ∧ callbackQueue (Notify n j w).2 = callbackQueue w ++ [(Notify n j w).1.1]).
Proof.
  pose proof (quiet_comingFault w Hquiet) as Hc.
  destruct (Notify_outcome n j w) as (o & Ho & ->).
  assert (Hq1 : ∀ body, comingFault (lastStage j w body) = None).
  { intros body. apply quiet_comingFault, (quiet_step w); [done|apply faults_lastStage]. }
  destruct o as [e|reason body|body reason|body]; cbn [resultOf snd fst jobs callbackQueue].
  - cbn in Ho. congruence.
  - right; left. rewrite Hq1. split; [apply lookup_insert_eq|].
    split; [reflexivity|apply callbackQueue_lastStage].
  - right; right. pose proof (Hq1 (Some body)) as Hp. cbn [lastStage] in Hp.
    rewrite Hp. cbn [posted jobs callbackQueue].
    split; [apply lookup_insert_eq|]. done.
  - left. pose proof (Hq1 (Some body)) as Hp. cbn [lastStage] in Hp.
    rewrite Hp. split; [apply lookup_delete_eq|done].
Qed.

(** X6.  An attempt writes one log line, naming the job's ID, aggregation ID
    and callback URL, exactly when it hands the job back [Failed]; otherwise
    it logs nothing. *)
Theorem Notify_logs_iff_failed (n : Notifier) (j : job.Job) (w : World) :
  logs (Notify n j w).2 =
    logs w ++ (if decide (job.CallbackState (Notify n j w).1.1 = job.StateFailed)
               then [Println ("Callback failed: {" +:+ job.ID j +:+ ", " +:+ job.AggrID j
                              +:+ "}, destination " +:+ job.CallbackURL j)]
               else []).
Proof.
  destruct (Notify_outcome n j w) as (o & _ & ->).
  destruct o as [e|reason body|body reason|body]; cbn [resultOf snd fst logs afterCall].
  - rewrite decide_False by discriminate. by rewrite app_nil_r.
  - rewrite decide_True by reflexivity. by rewrite logs_lastStage.
  - rewrite decide_False by discriminate. by rewrite app_nil_r.
  - rewrite decide_False by discriminate. by rewrite app_nil_r.
Qed.

(** X7.  When an attempt returns no error, the job's record is either gone
    from the table or is the very job handed back: memory and store agree. *)
Theorem Notify_nil_means_stored (n : Notifier) (j : job.Job) (w : World)
    (Hnil : (Notify n j w).1.2 = None) :
  jobs (Notify n j w).2 !! job.ID j = None
  ∨ jobs (Notify n j w).2 !! job.ID j = Some (Notify n j w).1.1.
Proof.
  destruct (Notify_outcome n j w) as (o & Ho & Heq). rewrite Heq in *.
  destruct o as [e|reason body|body reason|body];
    cbn [resultOf snd fst jobs] in *.
  - discriminate.
  - right. rewrite Hnil. apply lookup_insert_eq.
  - right. cbn [posted jobs]. apply lookup_insert_eq.
  - left. rewrite Hnil. apply lookup_delete_eq.
Qed.

Lemma calls_resultOf j w o :
  calls (resultOf j w o).2 =
    calls w ++ CallSaveJob (attempt j) ::
      match o with
      | PersistFailed _ => []
      | MarkedFailed reason None => [CallSaveJob (failedJob (attempt j) reason)]
      | MarkedFailed reason (Some body) =>
          [CallPost (job.CallbackURL j) "application/json" body;
           CallSaveJob (failedJob (attempt j) reason)]
      | Requeued body _ =>
          [CallPost (job.CallbackURL j) "application/json" body;
           CallQueuePendingCallback (attempt j)]
      | Removed body =>
          [CallPost (job.CallbackURL j) "application/json" body;
           CallRemoveJob (job.ID j)]
      end.
Proof.
  destruct o as [e|reason [body|]|body reason|body];
    cbn [resultOf snd calls afterCall lastStage posted claimed];
    by rewrite <- ?app_assoc.
Qed.

Lemma deliveryError_None r :
  deliveryError r = None ↔ ∃ code status, r = PostResponse code status ∧ (200 <= code < 300)%Z.
Proof.
  destruct r as [e|c st]; cbn.
  - split; [discriminate|]. intros (? & ? & ? & _). discriminate.
  - destruct ((c <? 200)%Z || (c >=? 300)%Z) eqn:E.
    + split; [discriminate|]. intros (c' & st' & [= <- <-] & Hr).
      apply orb_true_iff in E as [E|E].
      * apply Z.ltb_lt in E. lia.
      * rewrite Z.geb_leb in E. apply Z.leb_le in E. lia.
    + split; [|done]. intros _. exists c, st. split; [done|].
      apply orb_false_iff in E as [E1 E2].
      apply Z.ltb_ge in E1. rewrite Z.geb_leb in E2. apply Z.leb_gt in E2. lia.
Qed.

(** X8.  An attempt posts at most once, as its second call, right after the
    save that opens it; what it posts is the marshalled payload of the job,
    as [application/json], to the job's callback URL, and only for an
    eligible job whose opening save went through. *)
Theorem Notify_posts_payload_once (n : Notifier) (j : job.Job) (w : World)
    (rest : list Call) (i : nat) (url contentType body : string)
    (Hcalls : calls (Notify n j w).2 = calls w ++ rest)
    (Hpost : rest !! i = Some (CallPost url contentType body)) :
  i = 1%nat
  ∧ rest !! 0%nat = Some (CallSaveJob (attempt j))
  ∧ url = job.CallbackURL j
  ∧ contentType = "application/json"
  ∧ jsonMarshal (payload n j) = inl body
  ∧ eligible j
  ∧ comingFault w = None.
Proof.
  destruct (Notify_outcome n j w) as (o & Ho & Heq). rewrite Heq, calls_resultOf in Hcalls.
  apply app_inv_head in Hcalls. subst rest.
  destruct o as [e|reason [b|]|b reason|b];
    destruct i as [|[|[|i]]]; cbn in Hpost; try discriminate;
    injection Hpost as <- <- <-; cbn in Ho; destruct Ho as (? & ? & ? & _);
    by repeat split.
Qed.

(** X9.  An attempt calls [RemoveJob] exactly when its POST came back with a
    status in 200-299, and then on the job's own ID: no job whose callback
    was not accepted is ever removed. *)
Theorem Notify_removes_iff_accepted (n : Notifier) (j : job.Job) (w : World)
    (rest : list Call) (id : string)
    (Hcalls : calls (Notify n j w).2 = calls w ++ rest) :
  CallRemoveJob id ∈ rest ↔
    (id = job.ID j ∧ comingFault w = None ∧ eligible j
     ∧ ∃ body code status,
         jsonMarshal (payload n j) = inl body
         ∧ Post (client n) (job.CallbackURL j) "application/json" body
           = PostResponse code status
         ∧ (200 <= code < 300)%Z).
Proof.
  split.
  - intros Hin.
    destruct (Notify_outcome n j w) as (o & Ho & Heq).
    rewrite Heq, calls_resultOf in Hcalls.
    apply app_inv_head in Hcalls. subst rest.
    destruct o as [e|reason [b|]|b reason|b]; cbn in Ho;
      repeat (apply elem_of_cons in Hin as [Hin|Hin]; [try discriminate|]);
      try (by apply elem_of_nil in Hin).
    injection Hin as ->. destruct Ho as (Hc & Hel & Hm & Hd).
    apply deliveryError_None in Hd as (code & status & Hp & Hr).
    split; [done|]. split; [done|]. split; [done|]. by exists b, code, status.
  - intros (-> & Hc & Hel & body & code & status & Hm & Hp & Hr).
    assert (Hd : deliveryError (Post (client n) (job.CallbackURL j) "application/json" body)
                 = None) by (apply deliveryError_None; eauto).
    rewrite (Notify_delivers n j w body), Hd in Hcalls by done.
    unfold bind, ret in Hcalls. rewrite RemoveJob_run in Hcalls.
    cbn [snd calls posted] in Hcalls. rewrite <- app_assoc in Hcalls.
    apply app_inv_head in Hcalls. subst rest.
    apply elem_of_app. right. apply elem_of_cons. by left.
Qed.

(** ** The recovery scan on a store that may fail *)

Lemma scanned_refl w : scanned w w 0.
Proof.
  split; [done|]. exists [], [], []. rewrite !app_nil_r. by repeat split.
Qed.

Lemma scanned_trans w w1 w2 k1 k2 :
  scanned w w1 k1 → scanned w1 w2 k2 → scanned w w2 (k1 + k2).
Proof.
  intros (Hj1 & a1 & l1 & c1 & Hq1 & Hk1 & Ha1 & Hl1 & Hp1 & Hc1 & Hs1)
         (Hj2 & a2 & l2 & c2 & Hq2 & Hk2 & Ha2 & Hl2 & Hp2 & Hc2 & Hs2).
  split; [congruence|]. exists (a1 ++ a2), (l1 ++ l2), (c1 ++ c2).
  rewrite Hq2, Hq1, Hl2, Hl1, Hc2, Hc1, !app_assoc, length_app.
  repeat split; try done.
  - congruence.
  - apply Forall_app. split; [done|].
    eapply Forall_impl; [exact Ha2|]. intros j (id & Hid & Hp). exists id.
    by rewrite <- Hj1.
  - by apply Forall_app.
  - by apply Forall_app.
Qed.

Lemma scanned_call c w : scanCall c → scanned w (afterCall c w) 0.
Proof.
  intros Hc. split; [done|]. exists [], [], [c]. cbn. rewrite !app_nil_r.
  repeat split; try done. by constructor.
Qed.

Lemma scanned_line s w : scanned w (logLine (Println s) w).2 0.
Proof.
  split; [done|]. exists [], [Println s], []. cbn. rewrite !app_nil_r.
  repeat split; try done. constructor; eauto.
Qed.

Lemma scanned_queue j w :
  rogueOf w j →
  scanned w
    (mkWorld (jobs w) (callbackQueue w ++ [j]) (tail (faults w)) (logs w)
       (calls w ++ [CallQueuePendingCallback j])) 1.
Proof.
  intros Hr. split; [done|]. exists [j], [], [CallQueuePendingCallback j]. cbn.
  rewrite !app_nil_r. repeat split; try done; by constructor.
Qed.

Lemma requeueRogue_any (keys : list string) :
  ∀ rogueCount w,
    (rogueCount < 2 ^ 64)%N →
    ∃ k rogueCount' w',
      requeueRogue keys rogueCount w = (rogueCount', w')
      ∧ scanned w w' k
      ∧ rogueCount' = ((rogueCount + N.of_nat k) mod 2 ^ 64)%N.
Proof.
  induction keys as [|key keys IH]; intros rc w Hrc.
  - exists 0%nat, rc, w. split; [reflexivity|]. split; [apply scanned_refl|].
    rewrite N.add_0_r. symmetry. by apply N.mod_small.
  - assert (Hskip : ∀ w1, scanned w w1 0 →
        ∃ k rc' w', requeueRogue keys rc w1 = (rc', w') ∧ scanned w w' k
                    ∧ rc' = ((rc + N.of_nat k) mod 2 ^ 64)%N).
    { intros w1 Hs. destruct (IH rc w1 Hrc) as (k & rc' & w' & Hrun & Hk & Hr).
      exists k, rc', w'. split; [exact Hrun|]. split; [|exact Hr].
      exact (scanned_trans _ _ _ 0 k Hs Hk). }
    assert (Hlog : ∀ s w2, scanned w w2 0 →
        ∃ k rc' w', bind (logLine (Println s)) (λ _, requeueRogue keys rc) w2 = (rc', w')
                    ∧ scanned w w' k ∧ rc' = ((rc + N.of_nat k) mod 2 ^ 64)%N).
    { intros s w2 Hs2. unfold bind.
      destruct (logLine (Println s) w2) as [u w3] eqn:Hl.
      apply (Hskip w3).
      replace w3 with (logLine (Println s) w2).2 by (by rewrite Hl).
      exact (scanned_trans _ _ _ 0 0 Hs2 (scanned_line s w2)). }
    cbn [requeueRogue]. unfold bind at 1. rewrite HGet_run.
    set (w1 := afterCall (CallHGet key "CallbackState") w).
    assert (Hs1 : scanned w w1 0) by (by apply scanned_call).
    destruct (comingFault w) as [e|]; cbn [fst snd]; [by apply Hlog|].
    destruct (jobs w !! strings.TrimPrefix key JobKeyPrefix) as [j|] eqn:Hj;
      cbn [fst snd]; [|by apply Hlog].
    destruct (decide (job.CallbackState j = job.StateInProgress)) as [Hp|Hp];
      [|by apply (Hskip w1)].
    unfold bind at 1. rewrite GetJob_run.
    set (w2 := afterCall (CallGetJob (strings.TrimPrefix key JobKeyPrefix)) w1).
    assert (Hs2 : scanned w w2 0).
    { exact (scanned_trans _ _ _ 0 0 Hs1
               (scanned_call (CallGetJob (strings.TrimPrefix key JobKeyPrefix)) w1 I)). }
    destruct (comingFault w1) as [e|]; [by apply Hlog|].
    change (jobs w1) with (jobs w). rewrite Hj.
    unfold bind at 1. rewrite QueuePendingCallback_run.
    destruct (comingFault w2) as [e|].
    + apply Hlog.
      exact (scanned_trans _ _ _ 0 0 Hs2 (scanned_call (CallQueuePendingCallback j) w2 I)).
    + match goal with |- ∃ _ _ _, requeueRogue _ ?r ?w3 = _ ∧ _ =>
        destruct (IH r w3) as (k & rc' & w' & Hrun & Hk & Hr)
      end.
      { apply N.mod_lt. done. }
      exists (S k), rc', w'. split; [exact Hrun|]. split.
      * change (S k) with (1 + k)%nat. eapply scanned_trans; [|exact Hk].
        change 1%nat with (0 + 1)%nat. eapply scanned_trans; [exact Hs2|].
        apply scanned_queue.
        exists (strings.TrimPrefix key JobKeyPrefix). by split.
      * rewrite Hr. rewrite N.Div0.add_mod_idemp_l. f_equal. lia.
Qed.

Lemma length_jobKeys w : length (storage.jobKeys JobKeyPrefix w) = size (jobs w).
Proof. by rewrite jobKeys_keyOf, length_fmap, length_map_to_list. Qed.

Lemma scanRogue_any (fuel : nat) :
  ∀ (cursor : nat) rogueCount w,
    (rogueCount < 2 ^ 64)%N →
    ∃ k r w',
      scanRogue fuel cursor rogueCount w = (r, w')
      ∧ scanned w w' k
      ∧ (∀ rogueCount', r = Some rogueCount' →
           rogueCount' = ((rogueCount + N.of_nat k) mod 2 ^ 64)%N)
      ∧ ((0 < fuel)%nat → (size (jobs w) ≤ cursor + 50 * fuel)%nat → r ≠ None).
Proof.
  induction fuel as [|fuel IH]; intros c rc w Hrc.
  - exists 0%nat, None, w. split; [reflexivity|]. split; [apply scanned_refl|].
    split; [discriminate|]. lia.
  - cbn [scanRogue]. unfold bind at 1. rewrite Scan_run.
    set (w1 := afterCall (CallScan c (JobKeyPrefix +:+ "*") 50) w).
    assert (Hs1 : scanned w w1 0)
      by (exact (scanned_call (CallScan c (JobKeyPrefix +:+ "*") 50) w I)).
    destruct (comingFault w) as [e|].
    + exists 0%nat, (Some rc), (logLine (Println e) w1).2.
      split; [reflexivity|].
      split; [exact (scanned_trans _ _ _ 0 0 Hs1 (scanned_line e w1))|].
      split; [|discriminate].
      intros rc' [= <-]. rewrite N.add_0_r. symmetry. by apply N.mod_small.
    + unfold bind at 1.
      destruct (requeueRogue_any (take 50 (drop c (storage.jobKeys JobKeyPrefix w))) rc w1 Hrc)
        as (k1 & rc1 & w2 & Hrun & Hk1 & Hr1).
      rewrite Hrun.
      assert (Hs2 : scanned w w2 k1) by (exact (scanned_trans _ _ _ 0 k1 Hs1 Hk1)).
      rewrite length_jobKeys.
      destruct (Nat.ltb_spec (c + 50) (size (jobs w))) as [Hlt|Hge].
      * replace (Nat.eqb (c + 50) 0) with false by (symmetry; apply Nat.eqb_neq; lia).
        assert (Hrc1 : (rc1 < 2 ^ 64)%N) by (rewrite Hr1; by apply N.mod_lt).
        destruct (IH (c + 50)%nat rc1 w2 Hrc1) as (k2 & r & w3 & Hrun2 & Hk2 & Hr2 & Ht2).
        exists (k1 + k2)%nat, r, w3. split; [exact Hrun2|].
        split; [exact (scanned_trans _ _ _ k1 k2 Hs2 Hk2)|]. split.
        -- intros rc' Hsome. rewrite (Hr2 rc' Hsome), Hr1.
           rewrite N.Div0.add_mod_idemp_l. f_equal. lia.
        -- intros _ Hsize. apply Ht2; [lia|].
           destruct Hs2 as [-> _]. lia.
      * cbn [Nat.eqb]. exists k1, (Some rc1), w2. split; [reflexivity|].
        split; [exact Hs2|]. split; [|discriminate]. by intros rc' [= <-].
Qed.

Lemma collectRogueCallbacks_run n fuel w :
  collectRogueCallbacks n fuel w =
    match (scanRogue fuel 0 0%N w).1 with
    | None => (None, (scanRogue fuel 0 0%N w).2)
    | Some rogueCount =>
        (Some tt,
         if (0 <? rogueCount)%N
         then (logLine (PrintfRogue rogueCount) (scanRogue fuel 0 0%N w).2).2
         else (scanRogue fuel 0 0%N w).2)
    end.
Proof.
  unfold collectRogueCallbacks, bind.
  destruct (scanRogue fuel 0 0%N w) as [[rc|] w1]; cbn [fst snd]; [|reflexivity].
  by destruct (0 <? rc)%N.
Qed.

Lemma collectRogueCallbacks_scanned fuel w :
  ∃ k, scanned w (scanRogue fuel 0 0%N w).2 k
       ∧ (∀ rc, (scanRogue fuel 0 0%N w).1 = Some rc → rc = (N.of_nat k mod 2 ^ 64)%N)
       ∧ ((size (jobs w) < 50 * fuel)%nat → (scanRogue fuel 0 0%N w).1 ≠ None).
Proof.
  destruct (scanRogue_any fuel 0 0%N w) as (k & r & w' & Hrun & Hk & Hr & Ht); [done|].
  rewrite Hrun. exists k. split; [exact Hk|]. split; [exact Hr|].
  intros Hsize. apply Ht; lia.
Qed.

(** X10.  Whatever fails during the recovery scan, and however far it gets,
    it leaves the job table as it was and the queue with its old entries in
    place; every job it adds to the queue is a record of the table whose
    callback state is [InProgress]. *)
Theorem collectRogueCallbacks_only_requeues_rogues (n : Notifier) (fuel : nat) (w : World) :
  jobs (collectRogueCallbacks n fuel w).2 = jobs w
  ∧ ∃ added,
      callbackQueue (collectRogueCallbacks n fuel w).2 = callbackQueue w ++ added
      ∧ ∀ j, j ∈ added →
          ∃ id, jobs w !! id = Some j ∧ job.CallbackState j = job.StateInProgress.
Proof.
  destruct (collectRogueCallbacks_scanned fuel w)
    as (k & (Hj & added & lines & cs & Hq & _ & Ha & _) & _).
  rewrite collectRogueCallbacks_run.
  assert (Hall : ∀ j, j ∈ added →
            ∃ id, jobs w !! id = Some j ∧ job.CallbackState j = job.StateInProgress).
  { intros j Hin. rewrite Forall_forall in Ha. exact (Ha j Hin). }
  destruct (scanRogue fuel 0 0%N w).1 as [rc|]; cbn [snd]; [|by eauto].
  destruct (0 <? rc)%N; cbn [logLine snd jobs callbackQueue]; eauto.
Qed.

(** X11.  Whatever fails during the recovery scan, the calls it makes are
    key scans, reads of a record's callback state, reads of a record and
    pushes onto the pending-callback queue: it never saves or removes a
    record and never posts. *)
Theorem collectRogueCallbacks_reads_and_queues (n : Notifier) (fuel : nat) (w : World) :
  ∃ cs, calls (collectRogueCallbacks n fuel w).2 = calls w ++ cs
        ∧ ∀ c, c ∈ cs →
            match c with
            | CallScan _ _ _ | CallHGet _ _ | CallGetJob _
            | CallQueuePendingCallback _ => True
            | CallSaveJob _ | CallRemoveJob _ | CallPopCallback | CallPost _ _ _ => False
            end.
Proof.
  destruct (collectRogueCallbacks_scanned fuel w)
    as (k & (_ & added & lines & cs & _ & _ & _ & _ & _ & Hc & Hs) & _).
  rewrite collectRogueCallbacks_run. exists cs.
  assert (Hall : ∀ c, c ∈ cs →
            match c with
            | CallScan _ _ _ | CallHGet _ _ | CallGetJob _
            | CallQueuePendingCallback _ => True
            | CallSaveJob _ | CallRemoveJob _ | CallPopCallback | CallPost _ _ _ => False
            end).
  { intros c Hin. rewrite Forall_forall in Hs. specialize (Hs c Hin).
    by destruct c. }
  destruct (scanRogue fuel 0 0%N w).1 as [rc|]; cbn [snd]; [|done].
  destruct (0 <? rc)%N; cbn [logLine snd calls]; done.
Qed.


(** X13.  When the recovery scan has ended, the count it logs is the number
    of jobs it has put on the queue (as a [uint64]), logged last and only
    when it is not zero; every other line it logs is a plain error line. *)
Theorem collectRogueCallbacks_logs_count (n : Notifier) (fuel : nat) (w : World)
    (Hended : (collectRogueCallbacks n fuel w).1 = Some tt) :
  ∃ added lines,
    callbackQueue (collectRogueCallbacks n fuel w).2 = callbackQueue w ++ added
    ∧ (∀ l, l ∈ lines → ∃ s, l = Println s)
    ∧ logs (collectRogueCallbacks n fuel w).2 =
        logs w ++ lines
        ++ (if (0 <? N.of_nat (length added) mod 2 ^ 64)%N
            then [PrintfRogue (N.of_nat (length added) mod 2 ^ 64)%N]
            else []).
Proof.
  destruct (collectRogueCallbacks_scanned fuel w)
    as (k & (_ & added & lines & cs & Hq & Hlen & _ & Hl & Hp & _) & Hr & _).
  rewrite collectRogueCallbacks_run in *.
  exists added, lines. rewrite Forall_forall in Hp.
  destruct (scanRogue fuel 0 0%N w).1 as [rc|]; [|discriminate].
  rewrite Hlen, <- (Hr rc eq_refl).
  destruct (0 <? rc)%N; cbn [logLine snd logs callbackQueue].
  - rewrite Hl, <- app_assoc. done.
  - rewrite Hl, app_nil_r. done.
Qed.

(** ** Dispatching *)

Lemma PopCallback_run w :
  storage.PopCallback w =
    (match comingFault w with
     | Some e => inr e
     | None =>
         match callbackQueue w with
         | [] => inr storage.ErrEmptyQueue
         | j :: _ => inl j
         end
     end,
     mkWorld (jobs w)
       (match comingFault w with
        | Some _ => callbackQueue w
        | None => tail (callbackQueue w)
        end)
       (tail (faults w)) (logs w) (calls w ++ [CallPopCallback])).
Proof.
  unfold comingFault, storage.PopCallback. run.
  destruct (faults w) as [|[e|] fs]; cbn [fst snd callbackQueue];
    try reflexivity; by destruct (callbackQueue w).
Qed.

Lemma dispatch_run n w :
  dispatch n w =
    match comingFault w with
    | Some e =>
        (None,
         mkWorld (jobs w) (callbackQueue w) (tail (faults w))
           (logs w ++ (if decide (e = storage.ErrEmptyQueue ∨ e = storage.ErrRetryLater)
                       then [] else [Println e]))
           (calls w ++ [CallPopCallback]))
    | None =>
        (head (callbackQueue w),
         mkWorld (jobs w) (tail (callbackQueue w)) (tail (faults w)) (logs w)
           (calls w ++ [CallPopCallback]))
    end.
Proof.
  unfold dispatch, bind. rewrite PopCallback_run.
  destruct (comingFault w) as [e|].
  - destruct (decide (e = storage.ErrEmptyQueue)) as [->|H1].
    { rewrite decide_True by (by left). cbn. by rewrite app_nil_r. }
    destruct (decide (e = storage.ErrRetryLater)) as [->|H2].
    { rewrite decide_True by (by right). cbn. by rewrite app_nil_r. }
    rewrite decide_False by (by intros [?|?]). done.
  - by destruct (callbackQueue w).
Qed.

(** X14.  A round of the dispatcher hands over the job at the head of the
    queue, taking it off; on an empty queue it hands over nothing and logs
    nothing; on a store error it hands over nothing, leaves the queue alone
    and logs the error unless it is [ErrEmptyQueue] or [ErrRetryLater]. *)
Theorem dispatch_hands_head_or_waits (n : Notifier) (w : World) :
  (∀ j q, comingFault w = None → callbackQueue w = j :: q →
     (dispatch n w).1 = Some j
     ∧ callbackQueue (dispatch n w).2 = q
     ∧ logs (dispatch n w).2 = logs w)
  ∧ (comingFault w = None → callbackQueue w = [] →
     (dispatch n w).1 = None
     ∧ callbackQueue (dispatch n w).2 = []
     ∧ logs (dispatch n w).2 = logs w)
  ∧ (∀ e, comingFault w = Some e →
     (dispatch n w).1 = None
     ∧ callbackQueue (dispatch n w).2 = callbackQueue w
     ∧ logs (dispatch n w).2 =
         logs w ++ (if decide (e = storage.ErrEmptyQueue ∨ e = storage.ErrRetryLater)
                    then [] else [Println e])).
Proof.
  rewrite dispatch_run. split; [|split].
  - intros j q Hc Hq. rewrite Hc, Hq. done.
  - intros Hc Hq. rewrite Hc, Hq. done.
  - intros e Hc. rewrite Hc. cbn [fst snd callbackQueue logs]. done.
Qed.

(** ** Draining the queue *)











End Notifier.
End notifier.

(** ** Decoding a submitted job *)
Module unmarshal.

(** A parsed JSON text; [JFraction] stands for any number that is not an
    integer. *)
#[local] Unset Elimination Schemes.
Inductive JSON :=
| JNull
| JBool (b : bool)
| JInteger (z : Z)
| JFraction
| JString (s : string)
| JArray (elems : list JSON)
| JObject (fields : list (string * JSON)).
#[local] Set Elimination Schemes.

Fixpoint field (k : string) (fields : list (string * JSON)) : option JSON :=
  match fields with
  | [] => None
  | (k', v) :: fields => if decide (k' = k) then Some v else field k fields
  end.

Section Decode.

(** [encoding/json]'s reading of a text, [None] when it is not well-formed,
    and the test for a valid absolute URI. *)
Variable parseJSON : string -> option JSON.
Variable isAbsoluteURI : string -> bool.

(** The aggregation ID of a payload: a non-empty string. *)
Definition aggrIDOf (fields : list (string * JSON)) : option string :=
  match field "aggr_id" fields with
  | Some (JString s) => if decide (s = "") then None else Some s
  | _ => None
  end.

(** A URL of a payload: a non-empty string that is a valid absolute URI. *)
Definition uriOf (k : string) (fields : list (string * JSON)) : option string :=
  match field k fields with
  | Some (JString s) =>
      if decide (s = "") then None
      else if isAbsoluteURI s then Some s else None
  | _ => None
  end.

(** The download timeout of a payload: absent, or a positive integer. *)
Definition timeoutOf (fields : list (string * JSON)) : option Z :=
  match field "download_timeout" fields with
  | None => Some 0%Z
  | Some (JInteger z) => if (0 <? z)%Z then Some z else None
  | Some _ => None
  end.

(** The opaque extra of a payload, empty when there is none. *)
Definition extraOf (fields : list (string * JSON)) : string :=
  match field "extra" fields with
  | Some (JString s) => s
  | _ => ""
  end.

Definition decodeJob (v : option JSON) : job.Job + string :=
  match v with
  | Some (JObject fields) =>
      match aggrIDOf fields, uriOf "url" fields, uriOf "callback_url" fields,
            timeoutOf fields with
      | Some aggrID, Some url, Some callbackURL, Some timeout =>
          inl (job.mkJob "" aggrID url callbackURL (extraOf fields) timeout "" "" "" "" 0)
      | None, _, _, _ => inr "aggr_id must be a non empty string"
      | _, None, _, _ => inr "url must be a valid absolute URI"
      | _, _, None, _ => inr "callback_url must be a valid absolute URI"
      | _, _, _, None => inr "download_timeout must be a positive integer"
      end
  | _ => inr "malformed payload"
  end.

(** Modelled from the spec: [UnmarshalJSON] of package [job], of which only
    the test is among the sources at hand; it follows the validation contract
    of section 4.1 of the specification. *)
Definition UnmarshalJSON (data : string) : job.Job + string :=
  decodeJob (parseJSON data).









End Decode.
End unmarshal.

(** ** Scenarios *)
Module scenario.

(** Stand-ins for the library functions: a join of a base path and one
    segment, the rendering of a URL without query or fragment, a flat
    rendering of the payload, and a transport that answers every POST alike. *)
Definition joinSlash (p e : string) : string := p +:+ "/" +:+ e.

Definition render (u : url.URL) : string :=
  url.Scheme u +:+ "://" +:+ url.Host u +:+ url.Path u.

Definition marshal (cb : CallbackInfo.t) : string + string :=
  inl ("success=" +:+ (if CallbackInfo.Success cb then "true" else "false")
       +:+ " error=" +:+ CallbackInfo.Error cb
       +:+ " extra=" +:+ CallbackInfo.Extra cb
       +:+ " download_url=" +:+ CallbackInfo.DownloadURL cb).

Definition answering (r : PostResult) : string -> string -> string -> PostResult :=
  fun _ _ _ => r.

Definition parseRequestURI (s : string) : url.URL + string :=
  if decide (s = "http://dl.example/files")
  then inl (url.mkURL "http" "dl.example" "/files" "" "")
  else inr "invalid URI for request".

Definition base : url.URL := url.mkURL "http" "dl.example" "/files" "" "".

Definition notifierWith (r : PostResult) : notifier.Notifier :=
  notifier.mkNotifier base 2 (notifier.mkClient 3 (answering r)).

(** The job of the specification's scenarios, with a download state and
    meta, a callback state and the attempts made so far. *)
Definition jobA (id : string) (ds : job.State) (meta : string) (cs : job.State)
    (count : N) : job.Job :=
  job.mkJob id "A" "http://src/x" "http://dst/cb" "" 0 ds meta cs "" count.

Definition worldOf (js : list job.Job) (q : list job.Job) (fs : list error) : World :=
  mkWorld (list_to_map ((fun j => (job.ID j, j)) <$> js)) q fs [] [].

Definition status500 : PostResult := PostResponse 500 "500 Internal Server Error".
Definition status200 : PostResult := PostResponse 200 "200 OK".

(** A toy reading of JSON texts and of absolute URIs for the decoder. *)
Definition parsed (data : string) : option unmarshal.JSON :=
  if decide (data = "minimal")
  then Some (unmarshal.JObject
               [("aggr_id", unmarshal.JString "foo");
                ("url", unmarshal.JString "http://foobar.com");
                ("callback_url", unmarshal.JString "http://foo.bar")])
  else if decide (data = "timeout null")
  then Some (unmarshal.JObject
               [("aggr_id", unmarshal.JString "timeoutfoo");
                ("download_timeout", unmarshal.JNull);
                ("url", unmarshal.JString "http://foobar.com");
                ("callback_url", unmarshal.JString "http://foo.bar")])
  else None.

Definition httpURI (s : string) : bool :=
  match strings.stripPrefix "http://" s with
  | Some rest => negb (String.eqb rest "")
  | None => false
  end.



(** A first attempt answered by [r1], then the job popped from the queue and
    a second attempt answered by [r2]. *)
Definition twoAttempts (r1 r2 : PostResult) : job.Job * error * World :=
  let j := jobA "42" job.StateSuccess "" job.StatePending 0 in
  let first := notifier.Notify joinSlash render marshal (notifierWith r1) j
                 (worldOf [j] [] []) in
  match storage.PopCallback first.2 with
  | (inl j1, w) => notifier.Notify joinSlash render marshal (notifierWith r2) j1 w
  | (inr e, w) => (first.1.1, Some e, w)
  end.

Definition rogue : job.Job := jobA "42" job.StateSuccess "" job.StateInProgress 1.
Definition settled : job.Job := jobA "43" job.StateSuccess "" job.StateFailed 2.

(** A first attempt on the rogue job, answered 500 and answered 200, in a
    table that also holds the settled job. *)
Definition refused : job.Job * error * World :=
  notifier.Notify joinSlash render marshal (notifierWith status500) rogue
    (worldOf [rogue; settled] [] []).

Definition accepted : job.Job * error * World :=
  notifier.Notify joinSlash render marshal (notifierWith status200) rogue
    (worldOf [rogue; settled] [] []).


(** The endpoint answers 500 to the second attempt: the job ends [Failed]
    with two attempts counted. *)
Lemma second_failure_is_final :
  ∃ j' err w',
    notifier.Notify joinSlash render marshal (notifierWith status500)
      (jobA "42" job.StateSuccess "" job.StatePending 1)
      (worldOf [jobA "42" job.StateSuccess "" job.StatePending 1] [] [])
    = (j', err, w')
    ∧ job.CallbackState j' = job.StateFailed
    ∧ job.CallbackCount j' = 2%N
    ∧ job.CallbackMeta j' = "Received Status: 500 Internal Server Error".
Proof.
  destruct (notifier.Notify_failure_retry_or_fail joinSlash render marshal
              (notifierWith status500)
              (jobA "42" job.StateSuccess "" job.StatePending 1)
              (worldOf [jobA "42" job.StateSuccess "" job.StatePending 1] [] [])
              "success=true error= extra= download_url=http://dl.example/files/42"
              "Received Status: 500 Internal Server Error"
              eq_refl (or_introl eq_refl) eq_refl eq_refl)
    as (j' & err & w' & Hrun & Hcount & Hiff & Hfail & _).
  exists j', err, w'. split; [exact Hrun|].
  assert (Hge : (2 <= job.CallbackCount j')%N) by (rewrite Hcount; vm_compute; discriminate).
  destruct (Hfail Hge) as (-> & Hmeta & _).
  split; [reflexivity|]. split; [exact Hcount|]. exact Hmeta.
Defined.

(** An ineligible job on its first attempt: counted once, below the ceiling,
    and yet marked [Failed] and not queued again. *)
Lemma ineligible_first_attempt_fails :
  let r := notifier.Notify joinSlash render marshal (notifierWith status200)
             (jobA "42" job.StatePending "" job.StatePending 0)
             (worldOf [jobA "42" job.StatePending "" job.StatePending 0] [] []) in
  (job.CallbackCount r.1.1 < 2)%N
  ∧ job.CallbackState r.1.1 = job.StateFailed
  ∧ callbackQueue r.2 = []
  ∧ (job.CallbackState <$> jobs r.2 !! "42") = Some job.StateFailed.
Proof. vm_compute. repeat split. Qed.

Lemma ineligible_is_marked_failed :
  ∃ j' err w',
    notifier.Notify joinSlash render marshal (notifierWith status200)
      (jobA "42" job.StatePending "" job.StatePending 0)
      (worldOf [jobA "42" job.StatePending "" job.StatePending 0] [] [])
    = (j', err, w')
    ∧ job.CallbackState j' = job.StateFailed
    ∧ callbackQueue w' = [].
Proof.
  destruct (notifier.Notify_ineligible_fails joinSlash render marshal
              (notifierWith status200)
              (jobA "42" job.StatePending "" job.StatePending 0)
              (worldOf [jobA "42" job.StatePending "" job.StatePending 0] [] []))
    as (j' & err & w' & Hrun & _ & Hstate & _ & _ & Hq & _).
  - reflexivity.
  - intros [H|H]; discriminate H.
  - exists j', err, w'. split; [exact Hrun|]. split; [exact Hstate|exact Hq].
Defined.



(** The endpoint answers 500 to the first attempt: the job goes back on the
    queue and its stored record stays [InProgress]. *)
Lemma first_failure_requeues :
  ∃ err w',
    notifier.Notify joinSlash render marshal (notifierWith status500)
      (jobA "42" job.StateSuccess "" job.StatePending 0)
      (worldOf [jobA "42" job.StateSuccess "" job.StatePending 0] [] [])
    = (notifier.attempt (jobA "42" job.StateSuccess "" job.StatePending 0), err, w')
    ∧ (job.CallbackState <$> jobs w' !! "42") = Some job.StateInProgress.
Proof.
  destruct (notifier.Notify_retry_leaves_in_progress joinSlash render marshal
              (notifierWith status500)
              (jobA "42" job.StateSuccess "" job.StatePending 0)
              (worldOf [jobA "42" job.StateSuccess "" job.StatePending 0] [] [])
              "success=true error= extra= download_url=http://dl.example/files/42"
              "Received Status: 500 Internal Server Error"
              eq_refl (or_introl eq_refl) eq_refl eq_refl eq_refl)
    as ((err & w' & Hrun & _ & _ & stored & Hlook & Hstate & _) & _).
  exists err, w'. split; [exact Hrun|].
  change (jobs w' !! "42") with
    (jobs w' !! job.ID (jobA "42" job.StateSuccess "" job.StatePending 0)).
  rewrite Hlook. cbn [fmap option_fmap option_map]. by rewrite Hstate.
Defined.




(** The first key scan fails: the scan is over, nothing is queued, and
    [collectRogueCallbacks] returns. *)
Lemma scan_failure_ends_scan :
  (notifier.collectRogueCallbacks "jobs:" (notifierWith status200) 1
     (worldOf [rogue] [] [Some "connection refused"])).1 = Some tt
  ∧ callbackQueue (notifier.collectRogueCallbacks "jobs:" (notifierWith status200) 1
                     (worldOf [rogue] [] [Some "connection refused"])).2 = [].
Proof.
  destruct (notifier.scan_error_abandons "jobs:" (notifierWith status200) 0 0 0%N
              (worldOf [rogue] [] [Some "connection refused"]) "connection refused"
              eq_refl)
    as (_ & Hret & Hq & _).
  split; [exact Hret|exact Hq].
Defined.

(** The specification's scenario "500 twice": after the second attempt the
    record is kept, [Failed], with two attempts counted and a reason. *)
Example twice_500_fails_for_good :
  (job.CallbackState <$> jobs (twoAttempts status500 status500).2 !! "42",
   job.CallbackCount <$> jobs (twoAttempts status500 status500).2 !! "42",
   job.CallbackMeta <$> jobs (twoAttempts status500 status500).2 !! "42",
   callbackQueue (twoAttempts status500 status500).2)
  = (Some job.StateFailed, Some 2%N,
     Some "Received Status: 500 Internal Server Error", []).
Proof. vm_compute. reflexivity. Qed.

(** The specification's scenario "500 then 200": the job is removed after
    the second attempt, which counted two attempts. *)
Example after_500_then_200_removed :
  (jobs (twoAttempts status500 status200).2 !! "42",
   job.CallbackCount (twoAttempts status500 status200).1.1,
   (twoAttempts status500 status200).1.2,
   callbackQueue (twoAttempts status500 status200).2)
  = (None, 2%N, None, []).
Proof. vm_compute. reflexivity. Qed.

(** Rows of the decoder's test table, as read by [parsed]. *)
Example minimal_payload_decodes :
  unmarshal.UnmarshalJSON parsed httpURI "minimal"
  = inl (job.mkJob "" "foo" "http://foobar.com" "http://foo.bar" "" 0 "" "" "" "" 0).
Proof. vm_compute. reflexivity. Qed.

Example null_timeout_is_rejected :
  unmarshal.UnmarshalJSON parsed httpURI "timeout null"
  = inr "download_timeout must be a positive integer".
Proof. vm_compute. reflexivity. Qed.

Example empty_payload_is_rejected :
  unmarshal.UnmarshalJSON parsed httpURI "" = inr "malformed payload".
Proof. vm_compute. reflexivity. Qed.

(** [New] on a good template, on a non-positive concurrency and on a
    template that does not parse. *)
Example New_accepts_and_rejects :
  notifier.New parseRequestURI (answering status200) 2 "http://dl.example/files"
    = inl (notifierWith status200)
  ∧ notifier.New parseRequestURI (answering status200) 0 "http://dl.example/files"
    = inr "Notifier Concurrency must be a positive number"
  ∧ notifier.New parseRequestURI (answering status200) 2 "files"
    = inr "Could not parse Download URL, invalid URI for request".
Proof. vm_compute. repeat split. Qed.

(** Witnesses of the further properties. *)
Lemma refused_leaves_settled_alone :
  jobs refused.2 !! "43" = jobs (worldOf [rogue; settled] [] []) !! "43".
Proof.
  apply (notifier.Notify_touches_own_record_only joinSlash render marshal
           (notifierWith status500) rogue (worldOf [rogue; settled] [] []) "43").
  discriminate.
Defined.

Lemma refused_returns_nil : refused.1.2 = None ∧ notifier.quiet refused.2.
Proof.
  apply (notifier.Notify_quiet_returns_nil joinSlash render marshal
           (notifierWith status500) rogue (worldOf [rogue; settled] [] [])).
  constructor.
Defined.

Lemma refused_ends_one_of_three_ways :
  (jobs refused.2 !! "42" = None
   ∧ callbackQueue refused.2 = [])
  ∨ (jobs refused.2 !! "42" = Some refused.1.1
     ∧ job.CallbackState refused.1.1 = job.StateFailed
     ∧ callbackQueue refused.2 = [])
  ∨ (jobs refused.2 !! "42" = Some refused.1.1
     ∧ job.CallbackState refused.1.1 = job.StateInProgress
     ∧ callbackQueue refused.2 = [] ++ [refused.1.1]).
Proof.
  apply (notifier.Notify_quiet_three_ends joinSlash render marshal
           (notifierWith status500) rogue (worldOf [rogue; settled] [] [])).
  constructor.
Defined.

Lemma accepted_is_gone_or_stored :
  jobs accepted.2 !! "42" = None ∨ jobs accepted.2 !! "42" = Some accepted.1.1.
Proof.
  apply (notifier.Notify_nil_means_stored joinSlash render marshal
           (notifierWith status200) rogue (worldOf [rogue; settled] [] [])).
  vm_compute. reflexivity.
Defined.

Lemma refused_posted_second :
  1%nat = 1%nat
  ∧ calls refused.2 !! 0%nat = Some (CallSaveJob (notifier.attempt rogue))
  ∧ "http://dst/cb" = job.CallbackURL rogue
  ∧ "application/json" = "application/json"
  ∧ marshal (notifier.payload joinSlash render (notifierWith status500) rogue)
    = inl "success=true error= extra= download_url=http://dl.example/files/42"
  ∧ notifier.eligible rogue
  ∧ notifier.comingFault (worldOf [rogue; settled] [] []) = None.
Proof.
  apply (notifier.Notify_posts_payload_once joinSlash render marshal
           (notifierWith status500) rogue (worldOf [rogue; settled] [] [])
           (calls refused.2) 1 "http://dst/cb" "application/json"
           "success=true error= extra= download_url=http://dl.example/files/42").
  - reflexivity.
  - vm_compute. reflexivity.
Defined.

Lemma accepted_removes_42 :
  CallRemoveJob "42" ∈ calls accepted.2 ↔
    ("42" = job.ID rogue
     ∧ notifier.comingFault (worldOf [rogue; settled] [] []) = None
     ∧ notifier.eligible rogue
     ∧ ∃ body code status,
         marshal (notifier.payload joinSlash render (notifierWith status200) rogue)
         = inl body
         ∧ notifier.Post (notifier.client (notifierWith status200))
             (job.CallbackURL rogue) "application/json" body
           = PostResponse code status
         ∧ (200 <= code < 300)%Z).
Proof.
  apply (notifier.Notify_removes_iff_accepted joinSlash render marshal
           (notifierWith status200) rogue (worldOf [rogue; settled] [] [])
           (calls accepted.2) "42").
  reflexivity.
Defined.


Lemma failing_scan_counts_nothing :
  ∃ added lines,
    callbackQueue
      (notifier.collectRogueCallbacks "jobs:" (notifierWith status200) 1
         (worldOf [rogue; settled] [] [None; Some "connection reset"])).2 = [] ++ added
    ∧ (∀ l, l ∈ lines → ∃ s, l = Println s)
    ∧ logs
        (notifier.collectRogueCallbacks "jobs:" (notifierWith status200) 1
           (worldOf [rogue; settled] [] [None; Some "connection reset"])).2 =
        [] ++ lines
        ++ (if (0 <? N.of_nat (length added) mod 2 ^ 64)%N
            then [PrintfRogue (N.of_nat (length added) mod 2 ^ 64)%N]
            else []).
Proof.
  apply (notifier.collectRogueCallbacks_logs_count "jobs:" (notifierWith status200) 1
           (worldOf [rogue; settled] [] [None; Some "connection reset"])).
  vm_compute. reflexivity.
Defined.




End scenario.
